(** * ESC/P command parser of the DTG printer tools (tools/escp_parser.py)

    A shallow embedding of [ESCPParser.parse_packet] and of the statistics it
    keeps in the parser object, followed by the properties of the tokenizer:
    longest-first matching, parameter extraction, forward progress, absence of
    exceptions, and order independence of the statistics. *)

From Stdlib Require Strings.Byte.
From Stdlib Require Import Strings.Ascii Strings.String.
From stdpp Require Import gmap strings list fin_maps sorting.

Open Scope string_scope.
Open Scope list_scope.
Open Scope nat_scope.

(** ** Bytes *)

(** A Python [bytes] object is a list of bytes; an element read with
    [data[k]] is the integer [Byte.to_nat]. *)
Abbreviation byte := Byte.byte.
Abbreviation bytes := (list byte).

#[global] Instance byte_eq_decision : EqDecision byte := Byte.byte_eq_dec.
#[global] Instance byte_countable : Countable byte :=
  inj_countable Byte.to_N Byte.of_N Byte.of_to_N.

(** [data[lo:hi]] for [0 <= lo]: clipped to the buffer, never raises. *)
Definition slice (data : bytes) (lo hi : nat) : bytes :=
  take (hi - lo) (drop lo data).

(** One lowercase hexadecimal digit, as [bytes.hex] prints it. *)
Definition hex_digit (n : nat) : ascii :=
  match n with
  | 0 => "0" | 1 => "1" | 2 => "2" | 3 => "3"
  | 4 => "4" | 5 => "5" | 6 => "6" | 7 => "7"
  | 8 => "8" | 9 => "9" | 10 => "a" | 11 => "b"
  | 12 => "c" | 13 => "d" | 14 => "e" | _ => "f"
  end%char.

(** [bytes.hex()]: two digits per byte, high nibble first. *)
Fixpoint hex (bs : bytes) : string :=
  match bs with
  | [] => ""
  | b :: rest =>
      String (hex_digit (Byte.to_nat b / 16))
        (String (hex_digit (Byte.to_nat b mod 16)) (hex rest))
  end.

(** ** Exceptions *)

Inductive exn := IndexError | KeyError.

(** Result of running a piece of the parser: a value, a raised exception, or
    the loop budget of the model exhausted. *)
Inductive res (A : Type) :=
  | Ok (a : A)
  | Raise (e : exn)
  | OutOfFuel.
Arguments Ok {A} a.
Arguments Raise {A} e.
Arguments OutOfFuel {A}.

#[global] Instance res_ret : MRet res := fun _ a => Ok a.
#[global] Instance res_bind : MBind res := fun _ _ f m =>
  match m with
  | Ok a => f a
  | Raise e => Raise e
  | OutOfFuel => OutOfFuel
  end.

(** [data[k]] on a bytes object, for [0 <= k]. *)
Definition getitem (data : bytes) (k : nat) : res nat :=
  match data !! k with
  | Some b => Ok (Byte.to_nat b)
  | None => Raise IndexError
  end.

(** [d[key]] on a dict. *)
Definition dict_getitem (d : gmap bytes string) (key : bytes) : res string :=
  match d !! key with
  | Some v => Ok v
  | None => Raise KeyError
  end.

(** ** Data model *)

(** The [cmd_info] dict appended to [parsed_commands]. *)
Record cmd_info := CmdInfo {
  position : nat;
  command : string;
  description : string;
  parameters : string
}.

(** One entry of [self.parsed_data]. *)
Record parsed_entry := ParsedEntry {
  timestamp : string;
  direction : string;
  parsed_commands_of : list cmd_info
}.

(** The parser object: the three attributes set by [__init__]. *)
Record ESCPParser := Parser {
  commands_found : gmap bytes nat;
  parsed_data : list parsed_entry;
  unknown_commands : gset bytes
}.

(** [ESCPParser()] *)
Definition init : ESCPParser :=
  {| commands_found := ∅; parsed_data := []; unknown_commands := ∅ |}.

(** [self.commands_found[cmd] += 1] on a [defaultdict(int)]. *)
Definition count_command (cmd : bytes) (self : ESCPParser) : ESCPParser :=
  {| commands_found :=
       <[cmd := default 0 (commands_found self !! cmd) + 1]> (commands_found self);
     parsed_data := parsed_data self;
     unknown_commands := unknown_commands self |}.

(** [self.unknown_commands.add(unknown_cmd)] *)
Definition add_unknown (unknown_cmd : bytes) (self : ESCPParser) : ESCPParser :=
  {| commands_found := commands_found self;
     parsed_data := parsed_data self;
     unknown_commands := {[unknown_cmd]} ∪ unknown_commands self |}.

(** [ESC = b'\x1b'] *)
Definition ESC : bytes := [Byte.x1b].

(** The local variables of [parse_packet] together with [self]. *)
Record frame := Frame {
  i : nat;
  parsed_commands : list cmd_info;
  self_ : ESCPParser
}.

Section Tokenizer.

(** The command dictionary the parser consults. *)
Variable table : gmap bytes string.

(** Lines 144-147: the parameter length read after a matched command. *)
Definition read_param_len (data : bytes) (i cmd_len : nat) : res nat :=
  if bool_decide (3 ≤ cmd_len) then
    if bool_decide (i + cmd_len + 1 < length data) then
      lo ← getitem data (i + cmd_len);
      hi ← (if bool_decide (i + cmd_len + 2 < length data)
            then b ← getitem data (i + cmd_len + 1); mret (b * 256)
            else mret 0);
      mret (lo + hi)
    else mret 0
  else mret 0.

(** Lines 150-152: the parameter bytes, [[]] when absent or out of bounds. *)
Definition read_params (data : bytes) (i cmd_len param_len : nat) : bytes :=
  if bool_decide (0 < param_len) && bool_decide (i + cmd_len + 2 + param_len ≤ length data)
  then slice data (i + cmd_len + 2) (i + cmd_len + 2 + param_len)
  else [].

(** Lines 143-164: the body of [if cmd in ESCP_COMMANDS] inside the loop
    over the candidate lengths. *)
Definition on_match (data : bytes) (cmd : bytes) (cmd_len : nat) (fr : frame) : res frame :=
  param_len ← read_param_len data (i fr) cmd_len;
  let params := read_params data (i fr) cmd_len param_len in
  desc ← dict_getitem table cmd;
  let info := {| position := i fr;
                 command := hex cmd;
                 description := desc;
                 parameters := if bool_decide (params ≠ []) then hex params else "" |} in
  mret {| i := i fr + (cmd_len + (if bool_decide (0 < param_len) then param_len + 2 else 0));
          parsed_commands := parsed_commands fr ++ [info];
          self_ := count_command cmd (self_ fr) |}.

(** Lines 139-165: [for cmd_len in range(5, 1, -1)] with its [break]; the
    boolean is [matched]. *)
Fixpoint try_lengths (lens : list nat) (data : bytes) (fr : frame) : res (bool * frame) :=
  match lens with
  | [] => mret (false, fr)
  | cmd_len :: rest =>
      if bool_decide (i fr + cmd_len ≤ length data) then
        let cmd := slice data (i fr) (i fr + cmd_len) in
        if bool_decide (cmd ∈ dom table) then
          fr' ← on_match data cmd cmd_len fr;
          mret (true, fr')
        else try_lengths rest data fr
      else try_lengths rest data fr
  end.

(** Lines 168-182: the second attempt at a two-byte command. *)
Definition try_simple (data : bytes) (matched : bool) (fr : frame) : res (bool * frame) :=
  if negb matched && bool_decide (i fr + 2 ≤ length data) then
    let cmd := slice data (i fr) (i fr + 2) in
    if bool_decide (cmd ∈ dom table) then
      desc ← dict_getitem table cmd;
      let info := {| position := i fr;
                     command := hex cmd;
                     description := desc;
                     parameters := "" |} in
      mret (true, {| i := i fr + 2;
                     parsed_commands := parsed_commands fr ++ [info];
                     self_ := count_command cmd (self_ fr) |})
    else mret (matched, fr)
  else mret (matched, fr).

(** Lines 185-189: the unknown-command fallback. *)
Definition on_unknown (data : bytes) (fr : frame) : frame :=
  let unknown_cmd := slice data (i fr) (i fr + 2) in
  {| i := i fr + 1;
     parsed_commands := parsed_commands fr;
     self_ := add_unknown unknown_cmd (self_ fr) |}.

(** Lines 135-191: one iteration of the [while] loop. *)
Definition body (data : bytes) (fr : frame) : res frame :=
  if bool_decide (slice data (i fr) (i fr + 1) = ESC) then
    '(matched, fr1) ← try_lengths [5; 4; 3; 2] data fr;
    '(matched, fr2) ← try_simple data matched fr1;
    if negb matched then mret (on_unknown data fr2) else mret fr2
  else
    mret {| i := i fr + 1;
            parsed_commands := parsed_commands fr;
            self_ := self_ fr |}.

(** Lines 134-191: [while i < len(data)], with a budget of iterations. *)
Fixpoint while_loop (fuel : nat) (data : bytes) (fr : frame) : res frame :=
  if bool_decide (i fr < length data) then
    match fuel with
    | 0 => OutOfFuel
    | S fuel' => fr' ← body data fr; while_loop fuel' data fr'
    end
  else mret fr.

(** [parse_packet(self, data)]: the returned list and the updated parser.
    One iteration per byte of the buffer is budget enough, as the
    termination theorem below shows. *)
Definition parse_packet (self : ESCPParser) (data : bytes)
  : res (list cmd_info * ESCPParser) :=
  fr ← while_loop (length data) data
         {| i := 0; parsed_commands := []; self_ := self |};
  mret (parsed_commands fr, self_ fr).

End Tokenizer.

(** The module-level dictionary [ESCP_COMMANDS]. *)
Definition ESCP_COMMANDS : gmap bytes string :=
  list_to_map
    [ ([Byte.x1b; Byte.x40], "Initialize printer");
      ([Byte.x1b; Byte.x28; Byte.x47], "Select graphics mode");
      ([Byte.x1b; Byte.x28; Byte.x55], "Set unit");
      ([Byte.x1b; Byte.x28; Byte.x4b], "Set color selection");
      ([Byte.x1b; Byte.x28; Byte.x69], "Set ink density/type");
      ([Byte.x1b; Byte.x28; Byte.x63], "Set page format");
      ([Byte.x1b; Byte.x28; Byte.x43], "Set page length");
      ([Byte.x1b; Byte.x28; Byte.x56], "Set absolute vertical position");
      ([Byte.x1b; Byte.x28; Byte.x76], "Set relative vertical position");
      ([Byte.x1b; Byte.x28; Byte.x48], "Set horizontal spacing");
      ([Byte.x1b; Byte.x24], "Set absolute horizontal position");
      ([Byte.x1b; Byte.x5c], "Set relative horizontal position");
      ([Byte.x1b; Byte.x28; Byte.x52], "Select print color");
      ([Byte.x1b; Byte.x28; Byte.x72], "Select color tables");
      ([Byte.x1b; Byte.x2e], "Graphics dot control");
      ([Byte.x1b; Byte.x2a], "Select bit image mode");
      ([Byte.x1b; Byte.x4b], "Select single-density graphics");
      ([Byte.x1b; Byte.x4c], "Select double-density graphics");
      ([Byte.x1b; Byte.x59], "Select high-speed double-density graphics");
      ([Byte.x1b; Byte.x5a], "Select quadruple-density graphics") ].


(** ** What one iteration does, as a value

    [decode] reads off the loop body which branch is taken at cursor [i] and
    with which values; [commit] applies it to the frame.  [body_decode] below
    shows that the loop body is exactly [commit] after [decode]. *)

Inductive event :=
  | Skip
  | Unknown (unknown_cmd : bytes)
  | Matched (cmd : bytes) (desc : string) (param_len : nat) (params : bytes).

(** The [cmd_info] built for a match at [pos]. *)
Definition info_of (pos : nat) (cmd : bytes) (desc : string) (params : bytes) : cmd_info :=
  {| position := pos;
     command := hex cmd;
     description := desc;
     parameters := if bool_decide (params ≠ []) then hex params else "" |}.

(** How far the cursor moves. *)
Definition advance (e : event) : nat :=
  match e with
  | Skip => 1
  | Unknown _ => 1
  | Matched cmd _ param_len _ =>
      length cmd + (if bool_decide (0 < param_len) then param_len + 2 else 0)
  end.

Definition commit (e : event) (fr : frame) : frame :=
  match e with
  | Skip =>
      {| i := i fr + 1; parsed_commands := parsed_commands fr; self_ := self_ fr |}
  | Unknown unknown_cmd =>
      {| i := i fr + 1; parsed_commands := parsed_commands fr;
         self_ := add_unknown unknown_cmd (self_ fr) |}
  | Matched cmd desc param_len params =>
      {| i := i fr + advance e;
         parsed_commands := parsed_commands fr ++ [info_of (i fr) cmd desc params];
         self_ := count_command cmd (self_ fr) |}
  end.

(** The integer at index [k], 0 outside the buffer (never consulted there). *)
Definition byte_at (data : bytes) (k : nat) : nat :=
  from_option Byte.to_nat 0 (data !! k).

Section Decode.

Variable table : gmap bytes string.

(** The test made for one candidate length. *)
Definition hit (data : bytes) (i cmd_len : nat) : bool :=
  bool_decide (i + cmd_len ≤ length data)
  && bool_decide (slice data i (i + cmd_len) ∈ dom table).

(** The value [param_len] has after lines 144-147. *)
Definition param_len_at (data : bytes) (i cmd_len : nat) : nat :=
  if bool_decide (3 ≤ cmd_len) && bool_decide (i + cmd_len + 1 < length data) then
    byte_at data (i + cmd_len)
    + (if bool_decide (i + cmd_len + 2 < length data)
       then byte_at data (i + cmd_len + 1) * 256 else 0)
  else 0.

(** The match recorded when the slice of length [cmd_len] is in the table. *)
Definition match_at (data : bytes) (i cmd_len : nat) : event :=
  let cmd := slice data i (i + cmd_len) in
  let param_len := param_len_at data i cmd_len in
  Matched cmd (default "" (table !! cmd)) param_len
    (read_params data i cmd_len param_len).

Definition decode (data : bytes) (i : nat) : event :=
  if bool_decide (data !! i = Some Byte.x1b) then
    match List.find (hit data i) [5; 4; 3; 2] with
    | Some cmd_len => match_at data i cmd_len
    | None => Unknown (slice data i (i + 2))
    end
  else Skip.

End Decode.

(** ** Iterations, traces and spans *)

(** [runs table data n fr fr']: starting in [fr], the loop condition holds and
    the body runs [n] times in a row, leaving [fr']. *)
Inductive runs (table : gmap bytes string) (data : bytes) : nat → frame → frame → Prop :=
  | runs_O fr : runs table data 0 fr fr
  | runs_S n fr fr' fr'' :
      i fr < length data →
      body table data fr = Ok fr' →
      runs table data n fr' fr'' →
      runs table data (S n) fr fr''.

(** The cursor positions the loop visits from [i] on, each with what happens
    there. *)
Fixpoint events (table : gmap bytes string) (fuel : nat) (data : bytes) (i : nat)
  : list (nat * event) :=
  match fuel with
  | 0 => []
  | S fuel' =>
      if bool_decide (i < length data) then
        let e := decode table data i in
        (i, e) :: events table fuel' data (i + advance e)
      else []
  end.

Definition trace (table : gmap bytes string) (data : bytes) : list (nat * event) :=
  events table (length data) data 0.

(** [parse_packet] builds no span object: a span is read off an iteration in
    one of two ways.  [spans_of] takes what the iteration records: one
    skipped byte; or the matched prefix ([command], line 156), followed, when
    the command is given parameters (line 152), by the parameter region (the
    two length bytes and the bytes of [parameters]). *)
Definition spans_of (pe : nat * event) : list (nat * nat) :=
  match pe.2 with
  | Skip => [(pe.1, pe.1 + 1)]
  | Unknown _ => [(pe.1, pe.1 + 1)]
  | Matched cmd _ _ params =>
      (pe.1, pe.1 + length cmd)
      :: (if bool_decide (params ≠ [])
          then [(pe.1 + length cmd, pe.1 + length cmd + 2 + length params)]
          else [])
  end.

Definition spans (table : gmap bytes string) (data : bytes) : list (nat * nat) :=
  concat (map spans_of (trace table data)).

(** [consumed_of] takes what the cursor passes over (lines 163, 189, 191):
    one skipped byte; or the matched prefix, followed, when [param_len] is
    positive, by [param_len + 2] offsets, whether or not the buffer has
    them. *)
Definition consumed_of (pe : nat * event) : list (nat * nat) :=
  match pe.2 with
  | Skip => [(pe.1, pe.1 + 1)]
  | Unknown _ => [(pe.1, pe.1 + 1)]
  | Matched cmd _ param_len _ =>
      (pe.1, pe.1 + length cmd)
      :: (if bool_decide (0 < param_len)
          then [(pe.1 + length cmd, pe.1 + length cmd + 2 + param_len)]
          else [])
  end.

Definition consumed (table : gmap bytes string) (data : bytes) : list (nat * nat) :=
  concat (map consumed_of (trace table data)).

(** [chain start sp]: the spans are non-empty and each begins where the
    previous one stopped, the first at [start]; the result is where the last
    one stops. *)
Fixpoint chain (start : nat) (sp : list (nat * nat)) : option nat :=
  match sp with
  | [] => Some start
  | (lo, hi) :: rest =>
      if bool_decide (lo = start) && bool_decide (lo < hi) then chain hi rest else None
  end.

(** The spans cover [0, len) without gap or overlap. *)
Definition tiles (sp : list (nat * nat)) (len : nat) : Prop :=
  chain 0 sp = Some len.

(** A match whose declared parameters do not fit in the buffer. *)
Definition truncated (e : event) : bool :=
  match e with
  | Matched _ _ param_len params => bool_decide (0 < param_len) && bool_decide (params = [])
  | _ => false
  end.

(** ** Feeding several packets (the loop of [parse_file], lines 64-88) *)

(** A captured packet whose data has already been converted to bytes. *)
Record packet := Packet {
  pkt_timestamp : string;
  pkt_direction : string;
  pkt_data : bytes
}.

Definition process_packet (table : gmap bytes string) (self : ESCPParser) (p : packet)
  : res ESCPParser :=
  '(parsed, self') ← parse_packet table self (pkt_data p);
  if bool_decide (parsed ≠ []) then
    mret {| commands_found := commands_found self';
            parsed_data := parsed_data self'
                           ++ [ {| timestamp := pkt_timestamp p;
                                   direction := pkt_direction p;
                                   parsed_commands_of := parsed |} ];
            unknown_commands := unknown_commands self' |}
  else mret self'.

Fixpoint process_packets (table : gmap bytes string) (self : ESCPParser) (ps : list packet)
  : res ESCPParser :=
  match ps with
  | [] => mret self
  | p :: rest => self' ← process_packet table self p; process_packets table self' rest
  end.

(** The statistics kept in the parser, and the effect of one event on them. *)
Definition stats : Type := gmap bytes nat * gset bytes.

Definition stats_of (self : ESCPParser) : stats :=
  (commands_found self, unknown_commands self).

Definition record_event (e : event) (st : stats) : stats :=
  match e with
  | Skip => st
  | Unknown unknown_cmd => (st.1, {[unknown_cmd]} ∪ st.2)
  | Matched cmd _ _ _ => (<[cmd := default 0 (st.1 !! cmd) + 1]> st.1, st.2)
  end.

Definition record_events (es : list (nat * event)) (st : stats) : stats :=
  foldl (λ st pe, record_event pe.2 st) st es.

(** A reported command occurs in the buffer at its reported position: its
    [command] field is the hex form of a slice of one of the tried lengths
    starting there, and that slice is the table key it is described by. *)
Definition occurs_at (table : gmap bytes string) (data : bytes) (c : cmd_info) : Prop :=
  ∃ cmd_len,
    2 ≤ cmd_len ≤ 5
    ∧ position c + cmd_len ≤ length data
    ∧ command c = hex (slice data (position c) (position c + cmd_len))
    ∧ table !! slice data (position c) (position c + cmd_len) = Some (description c).

(** Loop invariant for the reported commands: they lie strictly before the
    cursor, in increasing order, and each occurs in the buffer. *)
Definition reported_ok (table : gmap bytes string) (data : bytes) (fr : frame) : Prop :=
  StronglySorted lt (map position (parsed_commands fr))
  ∧ Forall (λ c, position c < i fr ∧ occurs_at table data c) (parsed_commands fr).

(** The frame [parse_packet] starts from. *)
Definition start (self : ESCPParser) : frame :=
  {| i := 0; parsed_commands := []; self_ := self |}.

(** ** Hexadecimal text

    [parse_file] reads packet data written as hexadecimal text (line 70);
    the capture tool writes it with [' '.join(f"{b:02x}" ...)]
    (tools/usb_capture.py, line 331). *)

(** The value of a hexadecimal digit, either case; [None] for any other
    character. *)
Definition hex_value (c : ascii) : option nat :=
  let n := nat_of_ascii c in
  if bool_decide (48 ≤ n ≤ 57) then Some (n - 48)
  else if bool_decide (97 ≤ n ≤ 102) then Some (n - 87)
  else if bool_decide (65 ≤ n ≤ 70) then Some (n - 55)
  else None.

(** ASCII whitespace: space, tab, line feed, vertical tab, form feed,
    carriage return. *)
Definition is_space (c : ascii) : bool :=
  let n := nat_of_ascii c in
  bool_decide (n = 32) || bool_decide (9 ≤ n ≤ 13).

(** [s.replace(' ', '')] *)
Fixpoint remove_spaces (s : string) : string :=
  match s with
  | EmptyString => EmptyString
  | String c rest =>
      if bool_decide (c = " "%char) then remove_spaces rest
      else String c (remove_spaces rest)
  end.

(** [bytes.fromhex(s)]: whitespace is skipped before a pair of digits, each
    pair gives one byte; [None] stands for the [ValueError] raised on any
    other character or on a digit without a partner. *)
Fixpoint fromhex (s : string) : option bytes :=
  match s with
  | EmptyString => Some []
  | String c rest =>
      if is_space c then fromhex rest
      else
        match hex_value c, rest with
        | Some top, String c' rest' =>
            match hex_value c' with
            | Some bot =>
                b ← Byte.of_nat (16 * top + bot);
                bs ← fromhex rest';
                Some (b :: bs)
            | None => None
            end
        | _, _ => None
        end
  end.

(** [sep.join(l)] *)
Fixpoint join (sep : string) (l : list string) : string :=
  match l with
  | [] => EmptyString
  | [x] => x
  | x :: rest => String.append x (String.append sep (join sep rest))
  end.

(** [' '.join([f"{b:02x}" for b in data])] *)
Definition spaced_hex (data : bytes) : string :=
  join " " (map (λ b, hex [b]) data).

(** ** Building bytes from integers *)

Inductive pyerr := ValueError | TypeError.

(** A value or the exception raised instead. *)
Inductive conv (A : Type) :=
  | Conv (a : A)
  | ConvError (e : pyerr).
Arguments Conv {A} a.
Arguments ConvError {A} e.

(** An element handed to [bytes(...)]: an integer, a boolean (an integer in
    Python), or anything else. *)
Inductive pyval :=
  | PInt (z : Z)
  | PBool (b : bool)
  | PNotInt.

(** One element of [bytes(l)]: integers of [range(256)] only. *)
Definition to_byte (v : pyval) : conv byte :=
  match v with
  | PInt z =>
      if bool_decide (0 ≤ z < 256)%Z then
        match Byte.of_nat (Z.to_nat z) with
        | Some b => Conv b
        | None => ConvError ValueError
        end
      else ConvError ValueError
  | PBool true => Conv Byte.x01
  | PBool false => Conv Byte.x00
  | PNotInt => ConvError TypeError
  end.

(** [bytes(l)] for a list [l]: the first offending element raises. *)
Fixpoint to_bytes (l : list pyval) : conv bytes :=
  match l with
  | [] => Conv []
  | v :: rest =>
      match to_byte v with
      | Conv b =>
          match to_bytes rest with
          | Conv bs => Conv (b :: bs)
          | ConvError e => ConvError e
          end
      | ConvError e => ConvError e
      end
  end.

(** ** The packet loop of [parse_file] (lines 64-90) *)

(** The type of a value under ['data'] that is neither text nor a list. *)
Inductive jtype := TDict | TInt | TFloat | TBool | TNone.

(** [type(v)] as line 78 formats it. *)
Definition type_repr (t : jtype) : string :=
  match t with
  | TDict => "<class 'dict'>"
  | TInt => "<class 'int'>"
  | TFloat => "<class 'float'>"
  | TBool => "<class 'bool'>"
  | TNone => "<class 'NoneType'>"
  end.

(** The value under ['data'] of a packet: text, a list, or something else.
    A character of a text is one of 256 here; in this loop a character
    beyond them acts as any character that is neither a hexadecimal digit
    nor white space, except when it is printed, which [can_print] below
    decides. *)
Inductive pdata :=
  | DataStr (s : string)
  | DataList (l : list pyval)
  | DataOther (t : jtype).

(** A packet object of the capture file: its metadata (the empty string
    when the key is absent) and its data, if it has the key ['data']. *)
Record jpacket := JPacket {
  jp_timestamp : string;
  jp_direction : string;
  jp_data : option pdata
}.

(** What the loop of line 64 binds to [packet]: an object; a text (a text
    element, a key when [data['packets']] is an object, a character when it
    is a text); a list, of which each element is a text or something else;
    or null, a number or a boolean. *)
Inductive jelem :=
  | ElemObject (p : jpacket)
  | ElemText (s : string)
  | ElemList (items : list (option string))
  | ElemScalar.

(** [needle in s] for two texts: [needle] occurs in [s]. *)
Fixpoint contains (needle s : string) : bool :=
  String.prefix needle s
  || match s with
     | EmptyString => false
     | String _ s' => contains needle s'
     end.

(** The text printed at line 72. *)
Definition hex_error_message (s : string) : string :=
  String.append "Error: Could not parse hex data: "
    (String.append (substring 0 50 s) "...").

(** The text printed at line 78. *)
Definition format_error_message (t : jtype) : string :=
  String.append "Error: Unsupported data format: " (type_repr t).

(** The loop over [data['packets']].  The boolean is the value returned:
    [True] (line 90) when the loop runs to its end, [False] (line 94) when
    an exception leaves it; the parser keeps what was recorded until then.
    [can_print msg] tells whether [print(msg)] succeeds: it raises when the
    standard output cannot take the text (UnicodeEncodeError for a character
    its encoding lacks), and the handler of line 92 catches that like any
    other exception.  ['data' in packet] raises TypeError for null, a number
    or a boolean (line 65); it is a substring test on a text and a
    membership test on a list, for which [packet['data']] then raises
    TypeError (line 67). *)
Fixpoint parse_file_packets (can_print : string → bool) (table : gmap bytes string)
    (self : ESCPParser) (packets : list jelem) : bool * ESCPParser :=
  match packets with
  | [] => (true, self)
  | ElemScalar :: _ => (false, self)
  | ElemText s :: rest =>
      if contains "data" s then (false, self)
      else parse_file_packets can_print table self rest
  | ElemList items :: rest =>
      if bool_decide (Some "data" ∈ items) then (false, self)
      else parse_file_packets can_print table self rest
  | ElemObject p :: rest =>
      match jp_data p with
      | None => parse_file_packets can_print table self rest
      | Some (DataStr s) =>
          match fromhex (remove_spaces s) with
          | Some packet_data =>
              match process_packet table self
                      {| pkt_timestamp := jp_timestamp p;
                         pkt_direction := jp_direction p;
                         pkt_data := packet_data |} with
              | Ok self' => parse_file_packets can_print table self' rest
              | _ => (false, self)
              end
          | None =>
              if can_print (hex_error_message s)
              then parse_file_packets can_print table self rest
              else (false, self)
          end
      | Some (DataList l) =>
          match to_bytes l with
          | Conv packet_data =>
              match process_packet table self
                      {| pkt_timestamp := jp_timestamp p;
                         pkt_direction := jp_direction p;
                         pkt_data := packet_data |} with
              | Ok self' => parse_file_packets can_print table self' rest
              | _ => (false, self)
              end
          | ConvError _ => (false, self)
          end
      | Some (DataOther t) =>
          if can_print (format_error_message t)
          then parse_file_packets can_print table self rest
          else (false, self)
      end
  end.

(** The elements the loop passes over without parsing anything and without
    an exception: an object with no ['data'] key (line 65), with data that
    is neither text nor a list (lines 77-79) or with text that is not
    hexadecimal (lines 71-73), when the message can be printed; a text or a
    list in which ['data'] does not occur (line 65). *)
Definition skipped (can_print : string → bool) (e : jelem) : bool :=
  match e with
  | ElemScalar => false
  | ElemText s => negb (contains "data" s)
  | ElemList items => negb (bool_decide (Some "data" ∈ items))
  | ElemObject p =>
      match jp_data p with
      | None => true
      | Some (DataOther t) => can_print (format_error_message t)
      | Some (DataStr s) =>
          bool_decide (fromhex (remove_spaces s) = None)
          && can_print (hex_error_message s)
      | Some (DataList _) => false
      end
  end.

(** The elements at which an exception leaves the loop: null, a number or a
    boolean (TypeError, line 65); a text or a list in which ['data'] occurs
    (TypeError, line 67); an object whose list [bytes()] rejects (line 76);
    an object whose message of line 72 or line 78 cannot be printed. *)
Definition aborts (can_print : string → bool) (e : jelem) : bool :=
  match e with
  | ElemScalar => true
  | ElemText s => contains "data" s
  | ElemList items => bool_decide (Some "data" ∈ items)
  | ElemObject p =>
      match jp_data p with
      | None => false
      | Some (DataOther t) => negb (can_print (format_error_message t))
      | Some (DataStr s) =>
          bool_decide (fromhex (remove_spaces s) = None)
          && negb (can_print (hex_error_message s))
      | Some (DataList l) =>
          match to_bytes l with
          | Conv _ => false
          | ConvError _ => true
          end
      end
  end.

(** [data.tolist()]: the bytes as a list of integers
    (tools/usb_capture.py, line 330). *)
Definition tolist (data : bytes) : list pyval :=
  map (λ b, PInt (Z.of_nat (Byte.to_nat b))) data.

(** The packet object [capture_traffic] records for the bytes it read
    (tools/usb_capture.py, lines 327-333), as [parse_file] sees it. *)
Definition captured (p : packet) : jelem :=
  ElemObject {| jp_timestamp := pkt_timestamp p;
                jp_direction := pkt_direction p;
                jp_data := Some (DataList (tolist (pkt_data p))) |}.

(** ** Statistics (lines 199-201 and 227-230) *)

(** [sum(self.commands_found.values())] *)
Definition total_commands (self : ESCPParser) : nat :=
  map_fold (λ _ count acc, count + acc) 0 (commands_found self).

(** [len(self.commands_found)] *)
Definition unique_commands (self : ESCPParser) : nat :=
  size (commands_found self).

(** [len(self.unknown_commands)] *)
Definition unknown_count (self : ESCPParser) : nat :=
  size (unknown_commands self).

(** [{cmd.hex(): count for cmd, count in self.commands_found.items()}] *)
Definition command_frequency (self : ESCPParser) : gmap string nat :=
  list_to_map (map (λ kv, (hex kv.1, kv.2)) (map_to_list (commands_found self))).

(** The number of commands held in [self.parsed_data]. *)
Definition commands_in (entries : list parsed_entry) : nat :=
  sum_list_with (λ e, length (parsed_commands_of e)) entries.

(** ** Commands built by the driver (src/driver/epson_dtg.py) *)

(** Entries of [COMMANDS] (lines 57-68). *)
Definition ABSOLUTE_HORIZ_POS : bytes := [Byte.x1b; Byte.x24].
Definition ABSOLUTE_VERT_POS : bytes := [Byte.x1b; Byte.x28; Byte.x56; Byte.x02; Byte.x00].
Definition SET_PAGE_LENGTH : bytes := [Byte.x1b; Byte.x28; Byte.x43; Byte.x02; Byte.x00].
Definition SET_COLOR : bytes := [Byte.x1b; Byte.x28; Byte.x4b; Byte.x02; Byte.x00].

Inductive InkChannel := WHITE | CYAN | MAGENTA | YELLOW | BLACK.

(** [color.value] *)
Definition ink_value (color : InkChannel) : Z :=
  match color with
  | WHITE => 0 | CYAN => 1 | MAGENTA => 2 | YELLOW => 3 | BLACK => 4
  end%Z.

(** [prefix + bytes(l)] *)
Definition with_args (prefix : bytes) (l : list pyval) : conv bytes :=
  match to_bytes l with
  | Conv args => Conv (prefix ++ args)
  | ConvError e => ConvError e
  end.

(** [bytes([v & 0xFF, (v >> 8) & 0xFF])] appended to a prefix. *)
Definition with_word (prefix : bytes) (v : Z) : conv bytes :=
  with_args prefix [PInt (Z.land v 255); PInt (Z.land (Z.shiftr v 8) 255)].

(** Line 406: [x_cmd] of [set_position]. *)
Definition x_cmd (x : Z) : conv bytes := with_word ABSOLUTE_HORIZ_POS x.

(** Line 412: [y_cmd] of [set_position]. *)
Definition y_cmd (y : Z) : conv bytes := with_word ABSOLUTE_VERT_POS y.

(** Line 540: [page_cmd] of [start_print_job]. *)
Definition page_cmd (height : Z) : conv bytes := with_word SET_PAGE_LENGTH height.

(** Line 440: [color_cmd] of [set_color]. *)
Definition color_cmd (color : InkChannel) : conv bytes :=
  with_args SET_COLOR [PInt 0; PInt (ink_value color)].

(** ** Extent of a reported command *)

(** The number of buffer bytes a reported command stands for: its prefix
    and, when parameters were extracted, the length field and the
    parameters (two hex digits per byte). *)
Definition extent (c : cmd_info) : nat :=
  String.length (command c) / 2
  + (if bool_decide (parameters c = "") then 0
     else 2 + String.length (parameters c) / 2).

(** The same command reported [shift] bytes further on. *)
Definition shifted (shift : nat) (c : cmd_info) : cmd_info :=
  {| position := shift + position c;
     command := command c;
     description := description c;
     parameters := parameters c |}.

(** A frame of the loop, seen [shift] bytes further on. *)
Definition shift_frame (shift : nat) (fr : frame) : frame :=
  {| i := shift + i fr;
     parsed_commands := map (shifted shift) (parsed_commands fr);
     self_ := self_ fr |}.

(** * Properties *)

(** ** Slices and indexing *)

Lemma length_slice (data : bytes) lo hi :
  hi ≤ length data → length (slice data lo hi) = hi - lo.
Proof.
  intros H. unfold slice. rewrite length_take, length_drop. lia.
Qed.

Lemma slice_one_esc (data : bytes) k :
  slice data k (k + 1) = ESC ↔ data !! k = Some Byte.x1b.
Proof.
  unfold slice, ESC. replace (k + 1 - k) with 1 by lia.
  replace (data !! k) with (drop k data !! 0)
    by (rewrite lookup_drop; f_equal; lia).
  destruct (drop k data) as [|b [|b' l]]; simpl; split; intros H;
    try discriminate; try (injection H as ->; reflexivity);
    inversion H; reflexivity.
Qed.

Lemma getitem_in_bounds (data : bytes) k :
  k < length data → getitem data k = Ok (byte_at data k).
Proof.
  intros H. unfold getitem, byte_at.
  destruct (lookup_lt_is_Some_2 data k H) as [b ->]. reflexivity.
Qed.

Lemma byte_at_bounded (data : bytes) k : byte_at data k ≤ 255.
Proof.
  unfold byte_at. destruct (data !! k); simpl; [apply Byte.to_nat_bounded | lia].
Qed.

Lemma length_hex bs : String.length (hex bs) = 2 * length bs.
Proof. induction bs as [|b bs IH]; simpl; [reflexivity | rewrite IH; lia]. Qed.

(** ** The loop body is [commit] after [decode] *)

Section Refinement.

Variable table : gmap bytes string.

Lemma read_param_len_eq data i cmd_len :
  read_param_len data i cmd_len = Ok (param_len_at data i cmd_len).
Proof.
  unfold read_param_len, param_len_at.
  repeat case_bool_decide; simpl; try reflexivity;
    rewrite !getitem_in_bounds by lia; reflexivity.
Qed.

Lemma on_match_eq data cmd_len fr :
  hit table data (i fr) cmd_len = true →
  on_match table data (slice data (i fr) (i fr + cmd_len)) cmd_len fr
  = Ok (commit (match_at table data (i fr) cmd_len) fr).
Proof.
  unfold hit. intros [Hlen Hin]%andb_prop.
  apply bool_decide_eq_true_1 in Hlen, Hin.
  apply elem_of_dom in Hin as [desc Hdesc].
  unfold on_match, match_at. rewrite read_param_len_eq. simpl.
  unfold dict_getitem. rewrite Hdesc. simpl.
  unfold info_of. rewrite length_slice by lia.
  replace (i fr + cmd_len - i fr) with cmd_len by lia.
  reflexivity.
Qed.

Lemma try_lengths_eq lens data fr :
  try_lengths table lens data fr
  = match List.find (hit table data (i fr)) lens with
    | Some cmd_len => Ok (true, commit (match_at table data (i fr) cmd_len) fr)
    | None => Ok (false, fr)
    end.
Proof.
  induction lens as [|k lens IH]; simpl; [reflexivity|].
  destruct (hit table data (i fr) k) eqn:Hk.
  - pose proof Hk as Hk'. unfold hit in Hk'.
    apply andb_prop in Hk' as [-> ->]. rewrite on_match_eq by exact Hk.
    reflexivity.
  - unfold hit in Hk. apply andb_false_iff in Hk as [-> | Hk]; [exact IH|].
    rewrite Hk. destruct (bool_decide (i fr + k ≤ length data)); exact IH.
Qed.

Lemma find_lengths_none data i :
  List.find (hit table data i) [5; 4; 3; 2] = None → hit table data i 2 = false.
Proof.
  simpl. repeat (destruct (hit table data i _); try discriminate). reflexivity.
Qed.

(** The second two-byte attempt never fires: a two-byte command is already
    found by the loop over the lengths. *)
Lemma try_simple_eq data matched fr :
  (matched = false → hit table data (i fr) 2 = false) →
  try_simple table data matched fr = Ok (matched, fr).
Proof.
  intros H. unfold try_simple. destruct matched; simpl; [reflexivity|].
  specialize (H eq_refl). unfold hit in H.
  destruct (bool_decide (i fr + 2 ≤ length data)); simpl in *; [|reflexivity].
  rewrite H. reflexivity.
Qed.

Lemma body_decode data fr :
  body table data fr = Ok (commit (decode table data (i fr)) fr).
Proof.
  unfold body, decode.
  rewrite (bool_decide_ext _ _ (slice_one_esc data (i fr))).
  case_bool_decide; [|reflexivity].
  rewrite try_lengths_eq.
  destruct (List.find (hit table data (i fr)) [5; 4; 3; 2]) as [k|] eqn:Hfind.
  - cbn -[try_simple]. rewrite try_simple_eq by discriminate. reflexivity.
  - cbn -[try_simple].
    rewrite try_simple_eq by (intros _; apply find_lengths_none, Hfind).
    reflexivity.
Qed.

End Refinement.

(** ** The loop *)

Section Loop.

Variable table : gmap bytes string.

Lemma find_lengths_some data i k :
  List.find (hit table data i) [5; 4; 3; 2] = Some k →
  hit table data i k = true ∧ 2 ≤ k ≤ 5.
Proof.
  intros [Hin Hk]%find_some. split; [exact Hk|].
  simpl in Hin. lia.
Qed.

Lemma hit_length data i k :
  hit table data i k = true → length (slice data i (i + k)) = k.
Proof.
  unfold hit. intros [Hlen _]%andb_prop. apply bool_decide_eq_true_1 in Hlen.
  rewrite length_slice by lia. lia.
Qed.

Lemma advance_decode_pos data i : 1 ≤ advance (decode table data i).
Proof.
  unfold decode. case_bool_decide; [|simpl; lia].
  destruct (List.find (hit table data i) [5; 4; 3; 2]) as [k|] eqn:Hfind; simpl; [|lia].
  apply find_lengths_some in Hfind as [Hk ?].
  rewrite (hit_length _ _ _ Hk). lia.
Qed.

Lemma i_commit e fr : i (commit e fr) = i fr + advance e.
Proof. destruct e; reflexivity. Qed.

Lemma while_loop_step fuel data fr :
  i fr < length data →
  while_loop table (S fuel) data fr
  = while_loop table fuel data (commit (decode table data (i fr)) fr).
Proof.
  intros H. simpl. rewrite bool_decide_eq_true_2 by exact H.
  rewrite body_decode. reflexivity.
Qed.

Lemma while_loop_exit fuel data fr :
  length data ≤ i fr → while_loop table fuel data fr = Ok fr.
Proof.
  intros H. destruct fuel; simpl; rewrite bool_decide_eq_false_2 by lia; reflexivity.
Qed.

(** Invariant rule: a property kept by every iteration holds on exit, and
    the loop does exit when the budget covers the bytes left. *)
Lemma while_loop_inv (P : frame → Prop) data :
  (∀ fr, P fr → i fr < length data → P (commit (decode table data (i fr)) fr)) →
  ∀ fuel fr, P fr → length data - i fr ≤ fuel →
    ∃ fr', while_loop table fuel data fr = Ok fr' ∧ P fr' ∧ length data ≤ i fr'.
Proof.
  intros Hstep fuel. induction fuel as [|fuel IH]; intros fr HP Hfuel.
  - exists fr. rewrite while_loop_exit by lia. split_and!; [reflexivity | exact HP | lia].
  - destruct (decide (i fr < length data)) as [Hlt|Hge].
    + rewrite while_loop_step by exact Hlt.
      apply IH; [apply Hstep; assumption|].
      rewrite i_commit. pose proof (advance_decode_pos data (i fr)). lia.
    + exists fr. rewrite while_loop_exit by lia.
      split_and!; [reflexivity | exact HP | lia].
Qed.

Lemma runs_cursor data n fr fr' :
  runs table data n fr fr' → i fr + n ≤ i fr'.
Proof.
  induction 1 as [fr | n fr fr1 fr2 Hlt Hbody _ IH]; [lia|].
  rewrite body_decode in Hbody. injection Hbody as <-.
  rewrite i_commit in IH. pose proof (advance_decode_pos data (i fr)). lia.
Qed.

Lemma runs_snoc data n fr fr1 fr2 :
  runs table data n fr fr1 → i fr1 < length data → body table data fr1 = Ok fr2 →
  runs table data (S n) fr fr2.
Proof.
  induction 1 as [fr | n fr fr' fr'' Hlt Hbody _ IH]; intros Hlt1 Hb1.
  - econstructor; [exact Hlt1 | exact Hb1 | constructor].
  - econstructor; [exact Hlt | exact Hbody | apply IH; assumption].
Qed.

Lemma runs_while_loop data n fr fr' :
  runs table data n fr fr' →
  ∀ fuel, while_loop table (n + fuel) data fr = while_loop table fuel data fr'.
Proof.
  induction 1 as [fr | n fr fr1 fr2 Hlt Hbody _ IH]; intros fuel; [reflexivity|].
  rewrite body_decode in Hbody. injection Hbody as <-.
  change (S n + fuel) with (S (n + fuel)).
  rewrite while_loop_step by exact Hlt. apply IH.
Qed.

(** The loop as a sequence of iterations: it leaves after at most as many
    iterations as bytes remain. *)
Lemma while_loop_runs data fuel fr :
  length data - i fr ≤ fuel →
  ∃ n fr', n ≤ length data - i fr ∧ runs table data n fr fr'
           ∧ length data ≤ i fr' ∧ while_loop table fuel data fr = Ok fr'.
Proof.
  revert fr. induction fuel as [|fuel IH]; intros fr Hfuel.
  - exists 0, fr. rewrite while_loop_exit by lia.
    split_and!; [lia | constructor | lia | reflexivity].
  - destruct (decide (i fr < length data)) as [Hlt|Hge].
    + pose proof (advance_decode_pos data (i fr)) as Hadv.
      destruct (IH (commit (decode table data (i fr)) fr)) as (n & fr' & Hn & Hruns & Hexit & Hloop).
      { rewrite i_commit. lia. }
      rewrite i_commit in Hn.
      exists (S n), fr'. rewrite while_loop_step by exact Hlt.
      split_and!; [lia | | exact Hexit | exact Hloop].
      econstructor; [exact Hlt | apply body_decode | exact Hruns].
    + exists 0, fr. rewrite while_loop_exit by lia.
      split_and!; [lia | constructor | lia | reflexivity].
Qed.

(** The result of the loop does not depend on the budget once it suffices. *)
Lemma while_loop_fuel data fuel fuel' fr :
  length data - i fr ≤ fuel → length data - i fr ≤ fuel' →
  while_loop table fuel data fr = while_loop table fuel' data fr.
Proof.
  intros H H'.
  destruct (while_loop_runs data (length data - i fr) fr) as (n & fr' & Hn & Hruns & Hexit & _);
    [lia|].
  replace fuel with (n + (fuel - n)) by lia.
  replace fuel' with (n + (fuel' - n)) by lia.
  rewrite !(runs_while_loop _ _ _ _ Hruns), !while_loop_exit by exact Hexit.
  reflexivity.
Qed.

Lemma while_loop_events data fuel fr :
  length data - i fr ≤ fuel →
  while_loop table fuel data fr
  = Ok (foldl (λ fr pe, commit pe.2 fr) fr (events table fuel data (i fr))).
Proof.
  revert fr. induction fuel as [|fuel IH]; intros fr Hfuel.
  - rewrite while_loop_exit by lia. reflexivity.
  - simpl events. case_bool_decide as Hlt.
    + rewrite while_loop_step by exact Hlt. simpl.
      rewrite IH; rewrite i_commit; [reflexivity|].
      pose proof (advance_decode_pos data (i fr)). lia.
    + rewrite while_loop_exit by lia. reflexivity.
Qed.

Lemma parse_packet_events self data :
  parse_packet table self data
  = Ok (let fr := foldl (λ fr pe, commit pe.2 fr)
                    {| i := 0; parsed_commands := []; self_ := self |}
                    (trace table data) in
        (parsed_commands fr, self_ fr)).
Proof.
  unfold parse_packet, trace. rewrite while_loop_events by (simpl; lia).
  reflexivity.
Qed.

End Loop.

(** ** Termination and absence of exceptions *)

(** C6: for every buffer [parse_packet] leaves its loop after at most
    [len(data)] iterations, and every iteration, whichever branch it takes
    (skip of a non-escape byte, table match, unknown fallback), moves the
    cursor forward by at least 1. *)
Theorem parse_packet_terminates (table : gmap bytes string) (self : ESCPParser) (data : bytes) :
  (∀ fr, ∃ fr', body table data fr = Ok fr' ∧ i fr + 1 ≤ i fr')
  ∧ ∃ n fr', n ≤ length data
      ∧ runs table data n (start self) fr'
      ∧ length data ≤ i fr'
      ∧ parse_packet table self data = Ok (parsed_commands fr', self_ fr').
Proof.
  split.
  - intros fr. eexists. split; [apply body_decode|].
    rewrite i_commit. pose proof (advance_decode_pos table data (i fr)). lia.
  - destruct (while_loop_runs table data (length data) (start self))
      as (n & fr' & Hn & Hruns & Hexit & Hloop); [simpl; lia|].
    exists n, fr'. split_and!; [simpl in Hn; lia | exact Hruns | exact Hexit |].
    unfold parse_packet. fold (start self). rewrite Hloop. reflexivity.
Qed.

(** C8: [parse_packet] raises no exception on any byte sequence: the two
    indexed reads of the length field are in bounds, the description lookup
    finds its key, every iteration completes, and the call returns a list of
    commands; truncated parameters and unknown escape sequences end up in the
    returned data, not in an exception. *)
Theorem parse_packet_never_raises (table : gmap bytes string) (self : ESCPParser) (data : bytes) :
  (∀ k cmd_len, ∃ n, read_param_len data k cmd_len = Ok n)
  ∧ (∀ fr, ∃ fr', body table data fr = Ok fr')
  ∧ ∃ cmds self', parse_packet table self data = Ok (cmds, self').
Proof.
  split_and!.
  - intros k cmd_len. eexists. apply read_param_len_eq.
  - intros fr. eexists. apply body_decode.
  - rewrite parse_packet_events. eauto.
Qed.

(** ** Reported commands *)

Section Reported.

Variable table : gmap bytes string.
Variable data : bytes.

Lemma match_at_occurs k pos :
  List.find (hit table data pos) [5; 4; 3; 2] = Some k →
  ∃ cmd desc param_len params,
    match_at table data pos k = Matched cmd desc param_len params
    ∧ length cmd = k
    ∧ occurs_at table data (info_of pos cmd desc params).
Proof.
  intros [Hk Hrange]%find_lengths_some.
  pose proof (hit_length _ _ _ _ Hk) as Hlen.
  unfold hit in Hk. apply andb_prop in Hk as [Hb Hin].
  apply bool_decide_eq_true_1 in Hb, Hin.
  apply elem_of_dom in Hin as [desc Hdesc].
  eexists _, _, _, _. split; [reflexivity|]. split; [exact Hlen|].
  exists k. simpl. rewrite Hdesc. simpl. split_and!; try lia; reflexivity.
Qed.

Lemma reported_ok_step fr :
  reported_ok table data fr → reported_ok table data (commit (decode table data (i fr)) fr).
Proof.
  intros [Hsorted Hall].
  pose proof (advance_decode_pos table data (i fr)) as Hadv.
  unfold decode in *. case_bool_decide.
  - destruct (List.find (hit table data (i fr)) [5; 4; 3; 2]) as [k|] eqn:Hfind.
    + destruct (match_at_occurs _ _ Hfind) as (cmd & desc & pl & params & Hm & Hlen & Hocc).
      rewrite Hm in *. simpl in *. split; simpl.
      * rewrite map_app. apply StronglySorted_app_2; [| exact Hsorted | repeat constructor].
        intros x1 x2 Hx1 Hx2. apply list_elem_of_singleton in Hx2 as ->.
        apply list_elem_of_fmap in Hx1 as (c & -> & Hc).
        rewrite Forall_forall in Hall. destruct (Hall c Hc). simpl. lia.
      * apply Forall_app. split.
        -- eapply Forall_impl; [exact Hall|]. intros c [? ?]. split; [lia | assumption].
        -- constructor; [|constructor]. split; [simpl; lia | exact Hocc].
    + split; [exact Hsorted|]. simpl.
      eapply Forall_impl; [exact Hall|]. intros c [? ?]. split; [lia | assumption].
  - split; [exact Hsorted|]. simpl.
    eapply Forall_impl; [exact Hall|]. intros c [? ?]. split; [lia | assumption].
Qed.

End Reported.

(** C10: for every buffer the list returned by one [parse_packet] call has
    strictly increasing positions, and the [command] field of each entry is
    the hex encoding of the slice of the buffer of the matched length that
    starts at the entry's position (a slice that lies inside the buffer and is
    a key of the table). *)
Theorem parsed_commands_sorted_and_present
    (table : gmap bytes string) (self : ESCPParser) (data : bytes) :
  ∃ cmds self',
    parse_packet table self data = Ok (cmds, self')
    ∧ StronglySorted lt (map position cmds)
    ∧ Forall (occurs_at table data) cmds.
Proof.
  destruct (while_loop_inv table (reported_ok table data) data
              (λ fr H _, reported_ok_step table data fr H)
              (length data) (start self))
    as (fr' & Hloop & [Hsorted Hall] & _).
  { split; simpl; constructor. }
  { simpl. lia. }
  exists (parsed_commands fr'), (self_ fr').
  unfold parse_packet. fold (start self). rewrite Hloop.
  split_and!; [reflexivity | exact Hsorted |].
  eapply Forall_impl; [exact Hall|]. intros c [_ H]. exact H.
Qed.

(** ** Which branch is taken *)

Section Branches.

Variable table : gmap bytes string.

Lemma hit_true data pos k :
  pos + k ≤ length data → slice data pos (pos + k) ∈ dom table →
  hit table data pos k = true.
Proof.
  intros H1 H2. unfold hit. rewrite !bool_decide_eq_true_2 by assumption. reflexivity.
Qed.

Lemma hit_false data pos k :
  (pos + k ≤ length data → slice data pos (pos + k) ∉ dom table) →
  hit table data pos k = false.
Proof.
  intros H. unfold hit. case_bool_decide as Hlen; simpl; [|reflexivity].
  apply bool_decide_eq_false_2, H, Hlen.
Qed.

Lemma find_first_hit data pos k :
  2 ≤ k ≤ 5 →
  hit table data pos k = true →
  (∀ k', k < k' ≤ 5 → hit table data pos k' = false) →
  List.find (hit table data pos) [5; 4; 3; 2] = Some k.
Proof.
  intros Hk Hhit Hlonger.
  assert (k = 5 ∨ k = 4 ∨ k = 3 ∨ k = 2) as [-> | [-> | [-> | ->]]] by lia;
    simpl; rewrite ?Hlonger by lia; rewrite Hhit; reflexivity.
Qed.

Lemma decode_skip data pos :
  data !! pos ≠ Some Byte.x1b → decode table data pos = Skip.
Proof. intros H. unfold decode. rewrite bool_decide_eq_false_2 by exact H. reflexivity. Qed.

Lemma decode_match data pos k :
  data !! pos = Some Byte.x1b →
  2 ≤ k ≤ 5 →
  hit table data pos k = true →
  (∀ k', k < k' ≤ 5 → hit table data pos k' = false) →
  decode table data pos = match_at table data pos k.
Proof.
  intros Hesc Hk Hhit Hlonger. unfold decode.
  rewrite bool_decide_eq_true_2 by exact Hesc.
  rewrite (find_first_hit _ _ _ Hk Hhit Hlonger). reflexivity.
Qed.

Lemma decode_unknown data pos :
  data !! pos = Some Byte.x1b →
  (∀ k, 2 ≤ k ≤ 5 → hit table data pos k = false) →
  decode table data pos = Unknown (slice data pos (pos + 2)).
Proof.
  intros Hesc Hnone. unfold decode.
  rewrite bool_decide_eq_true_2 by exact Hesc.
  simpl. rewrite !Hnone by lia. reflexivity.
Qed.

(* Closes the case of [decode_cases] in which length [k] is the first hit. *)
Local Ltac take_length k Hk Hl :=
  right; split; [assumption|]; exists k;
  split; [lia|]; split; [exact Hk|]; split; [exact Hl|];
  apply decode_match; [assumption | lia | exact Hk | exact Hl].

(** Exactly one of the three branches is taken, and the choice among the
    candidate lengths is the longest one in the table. *)
Lemma decode_cases data pos :
  (data !! pos ≠ Some Byte.x1b ∧ decode table data pos = Skip)
  ∨ (data !! pos = Some Byte.x1b
     ∧ (∀ k, 2 ≤ k ≤ 5 → hit table data pos k = false)
     ∧ decode table data pos = Unknown (slice data pos (pos + 2)))
  ∨ (data !! pos = Some Byte.x1b
     ∧ ∃ k, 2 ≤ k ≤ 5 ∧ hit table data pos k = true
            ∧ (∀ k', k < k' ≤ 5 → hit table data pos k' = false)
            ∧ decode table data pos = match_at table data pos k).
Proof.
  destruct (decide (data !! pos = Some Byte.x1b)) as [Hesc|Hne];
    [|left; split; [exact Hne | apply decode_skip, Hne]].
  right.
  destruct (hit table data pos 5) eqn:H5.
  { assert (∀ k', 5 < k' ≤ 5 → hit table data pos k' = false) as Hl by (intros; lia).
    take_length 5 H5 Hl. }
  destruct (hit table data pos 4) eqn:H4.
  { assert (∀ k', 4 < k' ≤ 5 → hit table data pos k' = false) as Hl
      by (intros k' ?; replace k' with 5 by lia; exact H5).
    take_length 4 H4 Hl. }
  destruct (hit table data pos 3) eqn:H3.
  { assert (∀ k', 3 < k' ≤ 5 → hit table data pos k' = false) as Hl.
    { intros k' ?. assert (k' = 5 ∨ k' = 4) as [-> | ->] by lia; assumption. }
    take_length 3 H3 Hl. }
  destruct (hit table data pos 2) eqn:H2.
  { assert (∀ k', 2 < k' ≤ 5 → hit table data pos k' = false) as Hl.
    { intros k' ?. assert (k' = 5 ∨ k' = 4 ∨ k' = 3) as [-> | [-> | ->]] by lia; assumption. }
    take_length 2 H2 Hl. }
  left. assert (∀ k, 2 ≤ k ≤ 5 → hit table data pos k = false) as Hnone.
  { intros k ?. assert (k = 5 ∨ k = 4 ∨ k = 3 ∨ k = 2) as [-> | [-> | [-> | ->]]] by lia;
      assumption. }
  split; [exact Hesc|]. split; [exact Hnone|]. apply decode_unknown; assumption.
Qed.

Lemma slice_all (data : bytes) : slice data 0 (length data) = data.
Proof. unfold slice. rewrite drop_0, Nat.sub_0_r. apply firstn_all. Qed.

End Branches.

(** ** Longest match first *)

(** C2: at an escape byte the slices of lengths 5, 4, 3, 2 are tried in that
    order and the first one found in the table is the command recorded,
    whatever shorter slices are in the table too.  In particular, when the
    table holds a 2-byte entry [E2] and a 5-byte entry [E5] that begins with
    [E2], parsing the buffer [E5] returns exactly one command, the one for
    [E5], and counts [E5] only. *)
Theorem longest_match_wins (table : gmap bytes string) :
  (∀ data fr k,
     data !! i fr = Some Byte.x1b →
     2 ≤ k ≤ 5 →
     i fr + k ≤ length data →
     slice data (i fr) (i fr + k) ∈ dom table →
     (∀ k', k < k' ≤ 5 → i fr + k' ≤ length data →
            slice data (i fr) (i fr + k') ∉ dom table) →
     ∃ fr' c,
       body table data fr = Ok fr'
       ∧ parsed_commands fr' = parsed_commands fr ++ [c]
       ∧ position c = i fr
       ∧ command c = hex (slice data (i fr) (i fr + k))
       ∧ table !! slice data (i fr) (i fr + k) = Some (description c)
       ∧ self_ fr' = count_command (slice data (i fr) (i fr + k)) (self_ fr))
  ∧ (∀ E2 E5 d2 d5 self,
       table !! E2 = Some d2 → table !! E5 = Some d5 →
       length E2 = 2 → length E5 = 5 →
       E2 `prefix_of` E5 →
       head E5 = Some Byte.x1b →
       parse_packet table self E5
       = Ok ([ {| position := 0; command := hex E5; description := d5; parameters := "" |} ],
             count_command E5 self)
       ∧ hex E5 ≠ hex E2).
Proof.
  split.
  - intros data fr k Hesc Hk Hlen Hin Hlonger.
    pose proof Hin as [desc Hdesc]%elem_of_dom.
    eexists _, _. rewrite body_decode.
    rewrite (decode_match table data (i fr) k Hesc Hk).
    + split; [reflexivity|]. simpl. rewrite Hdesc. simpl.
      split_and!; reflexivity.
    + apply hit_true; assumption.
    + intros k' Hk'. apply hit_false. intros ?. apply Hlonger; [lia | assumption].
  - intros E2 E5 d2 d5 self H2 H5 Hl2 Hl5 Hpre Hhead. split.
    + assert (E5 !! 0 = Some Byte.x1b) as Hesc by (destruct E5; [discriminate | exact Hhead]).
      assert (slice E5 0 (0 + 5) = E5) as Hslice by (rewrite <- Hl5; apply slice_all).
      assert (decode table E5 0 = Matched E5 d5 0 []) as Hdec.
      { rewrite (decode_match table E5 0 5 Hesc); [| lia | | intros; lia].
        - unfold match_at, param_len_at, read_params. rewrite Hslice, H5. simpl.
          rewrite (bool_decide_eq_false_2 (0 + 5 + 1 < length E5)) by lia.
          rewrite (bool_decide_eq_false_2 (0 < 0)) by lia. reflexivity.
        - apply hit_true; [lia|]. rewrite Hslice. apply elem_of_dom. eauto. }
      unfold parse_packet. rewrite Hl5.
      rewrite while_loop_step by (simpl; lia).
      simpl i. rewrite Hdec. rewrite while_loop_exit by (simpl; lia).
      reflexivity.
    + intros Heq. apply (f_equal String.length) in Heq.
      rewrite !length_hex in Heq. lia.
Qed.

(** Witness for C2: the shipped table extended with a 5-byte entry that
    begins with the 2-byte entry [ESC @]. *)
Lemma longest_match_wins_witness :
  let E2 := [Byte.x1b; Byte.x40] in
  let E5 := [Byte.x1b; Byte.x40; Byte.x01; Byte.x02; Byte.x03] in
  let table := <[E5 := "Extended initialize"]> ESCP_COMMANDS in
  (∃ fr' c,
     body table (E5 ++ [Byte.x00]) (start init) = Ok fr'
     ∧ parsed_commands fr' = [c]
     ∧ position c = 0
     ∧ command c = hex E5
     ∧ table !! E5 = Some (description c)
     ∧ self_ fr' = count_command E5 init)
  ∧ parse_packet table init E5
    = Ok ([ {| position := 0; command := "1b40010203";
               description := "Extended initialize"; parameters := "" |} ],
          count_command E5 init)
  ∧ hex E5 ≠ hex E2.
Proof.
  intros E2 E5 table. split.
  - apply (proj1 (longest_match_wins table) (E5 ++ [Byte.x00]) (start init) 5).
    + reflexivity.
    + lia.
    + simpl. lia.
    + apply elem_of_dom. eexists. vm_compute. reflexivity.
    + intros k' Hk'. lia.
  - apply (proj2 (longest_match_wins table) E2 E5 "Initialize printer" "Extended initialize" init).
    + vm_compute. reflexivity.
    + vm_compute. reflexivity.
    + reflexivity.
    + reflexivity.
    + exists [Byte.x01; Byte.x02; Byte.x03]. reflexivity.
    + reflexivity.
Defined.

(** ** Resynchronization after an unknown sequence *)

(** C7: in the buffer [ESC, 0xFF, ESC, c], where no slice starting with
    [ESC, 0xFF] is in the table and [ESC, c] is a 2-byte entry, the first
    iteration reports nothing, counts nothing, adds the sequence
    [ESC, 0xFF] to [unknown_commands] and moves the cursor from 0 to 1 only.
    The call returns exactly one command, at position 2 (not 1); over the
    whole call [unknown_commands] gains exactly the one sequence
    [ESC, 0xFF] and [commands_found] exactly one count, for [ESC, c].  The
    loop makes three iterations: the unknown sequence at 0, a plain skip at
    1, where no match is attempted, and the match at 2. *)
Theorem unknown_resynchronizes (table : gmap bytes string) (self : ESCPParser)
    (c : byte) (d : string) :
  let data := [Byte.x1b; Byte.xff; Byte.x1b; c] in
  table !! [Byte.x1b; c] = Some d →
  [Byte.x1b; Byte.xff] ∉ dom table →
  [Byte.x1b; Byte.xff; Byte.x1b] ∉ dom table →
  [Byte.x1b; Byte.xff; Byte.x1b; c] ∉ dom table →
  ∃ fr1 self',
    body table data (start self) = Ok fr1
    ∧ i fr1 = 1
    ∧ parsed_commands fr1 = []
    ∧ unknown_commands (self_ fr1) = {[ [Byte.x1b; Byte.xff] ]} ∪ unknown_commands self
    ∧ commands_found (self_ fr1) = commands_found self
    ∧ parse_packet table self data
      = Ok ([ {| position := 2; command := hex [Byte.x1b; c];
                 description := d; parameters := "" |} ], self')
    ∧ unknown_commands self' = {[ [Byte.x1b; Byte.xff] ]} ∪ unknown_commands self
    ∧ [Byte.x1b; Byte.xff] ∈ unknown_commands self'
    ∧ ([Byte.x1b; Byte.xff] ∉ unknown_commands self →
       size (unknown_commands self') = S (size (unknown_commands self)))
    ∧ commands_found self'
      = <[ [Byte.x1b; c] := default 0 (commands_found self !! [Byte.x1b; c]) + 1 ]>
          (commands_found self)
    ∧ parsed_data self' = parsed_data self
    ∧ trace table data
      = [(0, Unknown [Byte.x1b; Byte.xff]); (1, Skip);
         (2, Matched [Byte.x1b; c] d 0 [])].
Proof.
  intros data Hc H2 H3 H4.
  assert (decode table data 0 = Unknown [Byte.x1b; Byte.xff]) as Hd0.
  { rewrite decode_unknown; [reflexivity | reflexivity |].
    intros k Hk. apply hit_false. intros Hlen. simpl in Hlen.
    assert (k = 2 ∨ k = 3 ∨ k = 4) as [-> | [-> | ->]] by lia; assumption. }
  assert (decode table data 1 = Skip) as Hd1 by (apply decode_skip; discriminate).
  assert (decode table data 2 = Matched [Byte.x1b; c] d 0 []) as Hd2.
  { rewrite (decode_match table data 2 2); [| reflexivity | lia | |].
    - unfold match_at, data. cbn [slice take drop Nat.sub Nat.add]. rewrite Hc. reflexivity.
    - apply hit_true; [simpl; lia|]. apply elem_of_dom. eexists. exact Hc.
    - intros k' Hk'. apply hit_false. simpl. lia. }
  exists {| i := 1; parsed_commands := [];
            self_ := add_unknown [Byte.x1b; Byte.xff] self |},
         (count_command [Byte.x1b; c] (add_unknown [Byte.x1b; Byte.xff] self)).
  split; [rewrite body_decode; simpl i; rewrite Hd0; reflexivity|].
  split; [reflexivity|]. split; [reflexivity|]. split; [reflexivity|].
  split; [reflexivity|]. split.
  { unfold parse_packet. change (length data) with 4.
    rewrite while_loop_step by (simpl; lia). simpl i. rewrite Hd0.
    rewrite while_loop_step by (simpl; lia). simpl i. rewrite Hd1.
    rewrite while_loop_step by (simpl; lia). simpl i. rewrite Hd2.
    rewrite while_loop_exit by (simpl; lia). reflexivity. }
  split; [reflexivity|]. split.
  { cbn [count_command add_unknown unknown_commands].
    apply elem_of_union. left. apply elem_of_singleton. reflexivity. }
  split.
  { intros Hnew. cbn [count_command add_unknown unknown_commands].
    rewrite size_union by (apply disjoint_singleton_l, Hnew).
    rewrite size_singleton. reflexivity. }
  split; [reflexivity|]. split; [reflexivity|].
  unfold trace. change (length data) with 4. cbn [events].
  change (length data) with 4.
  rewrite (bool_decide_eq_true_2 (0 < 4)) by lia. rewrite Hd0. cbn [advance Nat.add].
  rewrite (bool_decide_eq_true_2 (1 < 4)) by lia. rewrite Hd1. cbn [advance Nat.add].
  rewrite (bool_decide_eq_true_2 (2 < 4)) by lia. rewrite Hd2.
  cbn [advance length Nat.add]. rewrite (bool_decide_eq_false_2 (0 < 0)) by lia.
  cbn [Nat.add]. rewrite (bool_decide_eq_false_2 (4 < 4)) by lia. reflexivity.
Qed.

(** Witness for C7 on the shipped table and a new parser, with [c = '@']:
    afterwards [unknown_commands] is the one sequence [ESC, 0xFF]. *)
Lemma unknown_resynchronizes_witness :
  ∃ fr1 self',
    body ESCP_COMMANDS [Byte.x1b; Byte.xff; Byte.x1b; Byte.x40] (start init) = Ok fr1
    ∧ i fr1 = 1
    ∧ parsed_commands fr1 = []
    ∧ unknown_commands (self_ fr1) = {[ [Byte.x1b; Byte.xff] ]} ∪ ∅
    ∧ commands_found (self_ fr1) = ∅
    ∧ parse_packet ESCP_COMMANDS init [Byte.x1b; Byte.xff; Byte.x1b; Byte.x40]
      = Ok ([ {| position := 2; command := "1b40";
                 description := "Initialize printer"; parameters := "" |} ], self')
    ∧ unknown_commands self' = {[ [Byte.x1b; Byte.xff] ]} ∪ ∅
    ∧ [Byte.x1b; Byte.xff] ∈ unknown_commands self'
    ∧ ([Byte.x1b; Byte.xff] ∉ (∅ : gset bytes) → size (unknown_commands self') = 1)
    ∧ commands_found self' = <[ [Byte.x1b; Byte.x40] := 1 ]> ∅
    ∧ parsed_data self' = []
    ∧ trace ESCP_COMMANDS [Byte.x1b; Byte.xff; Byte.x1b; Byte.x40]
      = [(0, Unknown [Byte.x1b; Byte.xff]); (1, Skip);
         (2, Matched [Byte.x1b; Byte.x40] "Initialize printer" 0 [])].
Proof.
  apply (unknown_resynchronizes ESCP_COMMANDS init Byte.x40 "Initialize printer").
  - vm_compute. reflexivity.
  - apply not_elem_of_dom. vm_compute. reflexivity.
  - apply not_elem_of_dom. vm_compute. reflexivity.
  - apply not_elem_of_dom. vm_compute. reflexivity.
Defined.

(** ** The parameter length field *)

Section ParamLen.

Variable data : bytes.
Variables pos cmd_len : nat.

(** With at least one byte after the length field, the parameter length is
    the little-endian value of the two length bytes. *)
Lemma param_len_little_endian :
  3 ≤ cmd_len → pos + cmd_len + 2 < length data →
  read_param_len data pos cmd_len
  = Ok (byte_at data (pos + cmd_len) + 256 * byte_at data (pos + cmd_len + 1)).
Proof.
  intros H3 Hlen. rewrite read_param_len_eq. unfold param_len_at.
  rewrite !bool_decide_eq_true_2 by lia. simpl. f_equal. lia.
Qed.

(** With the length field the last two bytes of the buffer, only its low
    byte is used. *)
Lemma param_len_at_buffer_end :
  3 ≤ cmd_len → pos + cmd_len + 2 = length data →
  read_param_len data pos cmd_len = Ok (byte_at data (pos + cmd_len)).
Proof.
  intros H3 Hlen. rewrite read_param_len_eq. unfold param_len_at.
  rewrite !bool_decide_eq_true_2 by lia. simpl.
  rewrite bool_decide_eq_false_2 by lia. f_equal. lia.
Qed.

(** With fewer than two bytes after the prefix the length is 0. *)
Lemma param_len_short :
  length data ≤ pos + cmd_len + 1 → read_param_len data pos cmd_len = Ok 0.
Proof.
  intros Hlen. rewrite read_param_len_eq. unfold param_len_at.
  rewrite (bool_decide_eq_false_2 (pos + cmd_len + 1 < length data)) by lia.
  rewrite andb_false_r. reflexivity.
Qed.

(** A two-byte command has no length field. *)
Lemma param_len_simple :
  cmd_len < 3 → read_param_len data pos cmd_len = Ok 0.
Proof.
  intros H. rewrite read_param_len_eq. unfold param_len_at.
  rewrite (bool_decide_eq_false_2 (3 ≤ cmd_len)) by lia. reflexivity.
Qed.

End ParamLen.

(** C4: the length field [00 1b] at the very end of the buffer
    [ESC ( G 00 1b]: both length bytes are inside the buffer and their
    little-endian value is 256 * 27 = 6912, but the parameter length the code uses is 0,
    because the high byte is read only when a further byte follows it.  The
    difference shows in the result: the cursor moves to 3 and the final
    [ESC] is recorded as an unknown sequence. *)
Theorem param_len_drops_high_byte_at_end :
  let data := [Byte.x1b; Byte.x28; Byte.x47; Byte.x00; Byte.x1b] in
  0 + 3 + 1 < length data
  ∧ byte_at data (0 + 3) + 256 * byte_at data (0 + 3 + 1) = 256 * 27
  ∧ read_param_len data 0 3 = Ok 0
  ∧ ∃ fr' cmds self',
      body ESCP_COMMANDS data (start init) = Ok fr'
      ∧ i fr' = 3
      ∧ parse_packet ESCP_COMMANDS init data = Ok (cmds, self')
      ∧ unknown_commands self' = {[ [Byte.x1b] ]}.
Proof.
  intros data. split; [simpl; lia|]. split; [reflexivity|]. split; [reflexivity|].
  eexists _, _, _. split; [vm_compute; reflexivity|]. split; [reflexivity|].
  split; [vm_compute; reflexivity|]. vm_compute. reflexivity.
Qed.

(** ** Compound commands *)

Section Compound.

Variable table : gmap bytes string.
Variable data : bytes.

(** What the body does when the slice of length [k] at the cursor is the
    first one found in the table. *)
Lemma body_match fr k d :
  data !! i fr = Some Byte.x1b →
  2 ≤ k ≤ 5 →
  i fr + k ≤ length data →
  table !! slice data (i fr) (i fr + k) = Some d →
  (∀ k', k < k' ≤ 5 → i fr + k' ≤ length data →
         slice data (i fr) (i fr + k') ∉ dom table) →
  ∃ n, read_param_len data (i fr) k = Ok n
    ∧ body table data fr
      = Ok {| i := i fr + (k + (if bool_decide (0 < n) then n + 2 else 0));
              parsed_commands :=
                parsed_commands fr
                ++ [info_of (i fr) (slice data (i fr) (i fr + k)) d
                      (read_params data (i fr) k n)];
              self_ := count_command (slice data (i fr) (i fr + k)) (self_ fr) |}.
Proof.
  intros Hesc Hk Hlen Hd Hlonger.
  exists (param_len_at data (i fr) k). split; [apply read_param_len_eq|].
  assert (hit table data (i fr) k = true) as Hhit
    by (apply hit_true; [exact Hlen | apply elem_of_dom; eauto]).
  rewrite body_decode, (decode_match table data (i fr) k Hesc Hk Hhit).
  - unfold match_at, commit. rewrite Hd. simpl.
    rewrite (hit_length _ _ _ _ Hhit). reflexivity.
  - intros k' Hk'. apply hit_false. intros ?. apply Hlonger; [lia | assumption].
Qed.

Lemma read_params_fit pos k n :
  0 < n → pos + k + 2 + n ≤ length data →
  read_params data pos k n = slice data (pos + k + 2) (pos + k + 2 + n)
  ∧ length (read_params data pos k n) = n.
Proof.
  intros Hn Hfit. unfold read_params.
  rewrite !bool_decide_eq_true_2 by lia. simpl.
  split; [reflexivity|]. rewrite length_slice by lia. lia.
Qed.

Lemma read_params_none pos k n :
  n = 0 ∨ length data < pos + k + 2 + n → read_params data pos k n = [].
Proof.
  intros H. unfold read_params.
  destruct H as [-> | H].
  - rewrite (bool_decide_eq_false_2 (0 < 0)) by lia. reflexivity.
  - rewrite (bool_decide_eq_false_2 (pos + k + 2 + n ≤ length data)) by lia.
    rewrite andb_false_r. reflexivity.
Qed.

Lemma info_of_no_params pos cmd d :
  info_of pos cmd d []
  = {| position := pos; command := hex cmd; description := d; parameters := "" |}.
Proof. reflexivity. Qed.

Lemma info_of_params pos cmd d params :
  params ≠ [] →
  info_of pos cmd d params
  = {| position := pos; command := hex cmd; description := d; parameters := hex params |}.
Proof. intros H. unfold info_of. rewrite bool_decide_eq_true_2 by exact H. reflexivity. Qed.

End Compound.

(** C3, as the code has it: at a compound match (first table hit of length
    3 to 5 at an escape byte) whose decoded parameter length is 0, the
    command is recorded with empty parameters and the cursor advances past
    the matched prefix only.  When the decoded length [n] is positive but the
    parameter region does not fit in the buffer, the command is recorded with
    empty parameters as well, but the cursor advances by prefix, length field
    and [n], which puts it beyond the end of the buffer. *)
Theorem compound_without_params (table : gmap bytes string) (data : bytes)
    (fr : frame) (k n : nat) (d : string) :
  data !! i fr = Some Byte.x1b →
  3 ≤ k ≤ 5 →
  i fr + k ≤ length data →
  table !! slice data (i fr) (i fr + k) = Some d →
  (∀ k', k < k' ≤ 5 → i fr + k' ≤ length data →
         slice data (i fr) (i fr + k') ∉ dom table) →
  read_param_len data (i fr) k = Ok n →
  n = 0 ∨ length data < i fr + k + 2 + n →
  ∃ fr',
    body table data fr = Ok fr'
    ∧ parsed_commands fr'
      = parsed_commands fr
        ++ [ {| position := i fr;
                command := hex (slice data (i fr) (i fr + k));
                description := d;
                parameters := "" |} ]
    ∧ self_ fr' = count_command (slice data (i fr) (i fr + k)) (self_ fr)
    ∧ (n = 0 → i fr' = i fr + k)
    ∧ (0 < n → i fr' = i fr + k + 2 + n ∧ length data < i fr').
Proof.
  intros Hesc Hk Hlen Hd Hlonger Hn Hcase.
  destruct (body_match table data fr k d Hesc) as (n' & Hn' & Hbody); try assumption; [lia|].
  rewrite Hn in Hn'. injection Hn' as <-.
  rewrite (read_params_none data (i fr) k n Hcase), info_of_no_params in Hbody.
  eexists. split; [exact Hbody|]. simpl.
  split; [reflexivity|]. split; [reflexivity|]. split.
  - intros ->. rewrite (bool_decide_eq_false_2 (0 < 0)) by lia. lia.
  - intros Hpos. rewrite bool_decide_eq_true_2 by exact Hpos.
    destruct Hcase; lia.
Qed.

(** Witness for C3: [ESC ( G 05 00 41], a declared length of 5 with one byte
    of parameters present. *)
Lemma compound_without_params_witness :
  let data := [Byte.x1b; Byte.x28; Byte.x47; Byte.x05; Byte.x00; Byte.x41] in
  ∃ fr',
    body ESCP_COMMANDS data (start init) = Ok fr'
    ∧ parsed_commands fr'
      = [ {| position := 0; command := "1b2847";
             description := "Select graphics mode"; parameters := "" |} ]
    ∧ self_ fr' = count_command [Byte.x1b; Byte.x28; Byte.x47] init
    ∧ (5 = 0 → i fr' = 3)
    ∧ (0 < 5 → i fr' = 10 ∧ length data < i fr').
Proof.
  intros data.
  apply (compound_without_params ESCP_COMMANDS data (start init) 3 5 "Select graphics mode").
  - reflexivity.
  - lia.
  - simpl. lia.
  - vm_compute. reflexivity.
  - intros k' Hk' Hlen. apply not_elem_of_dom.
    assert (k' = 4 ∨ k' = 5) as [-> | ->] by lia; vm_compute; reflexivity.
  - reflexivity.
  - right. simpl. lia.
Defined.

(** Counterexample to C3 as stated: in [ESC ( G 05 00 41] the compound
    command [ESC ( G] is matched at 0, its decoded parameter length 5 is
    positive and the parameter region does not fit in the 6-byte buffer, yet
    the cursor does not stop after the 3-byte prefix: it moves to 10. *)
Lemma truncated_params_counterexample :
  let data := [Byte.x1b; Byte.x28; Byte.x47; Byte.x05; Byte.x00; Byte.x41] in
  ¬ (∀ fr', read_param_len data 0 3 = Ok 5 →
            ¬ (0 + 3 + 2 + 5 ≤ length data) →
            body ESCP_COMMANDS data (start init) = Ok fr' →
            i fr' = 0 + 3).
Proof.
  intros data Hclaim.
  specialize (Hclaim {| i := 10;
                        parsed_commands := [info_of 0 [Byte.x1b; Byte.x28; Byte.x47]
                                              "Select graphics mode" []];
                        self_ := count_command [Byte.x1b; Byte.x28; Byte.x47] init |}).
  assert (10 = 0 + 3) as Habs; [|discriminate Habs].
  apply Hclaim.
  - reflexivity.
  - simpl. lia.
  - vm_compute. reflexivity.
Qed.

(** ** The shipped table *)

Lemma shipped_keys (P : bytes) (d : string) :
  ESCP_COMMANDS !! P = Some d → head P = Some Byte.x1b ∧ 2 ≤ length P ≤ 3.
Proof.
  intros H. unfold ESCP_COMMANDS in H. apply elem_of_list_to_map_2 in H.
  revert H.
  apply (proj1 (Forall_forall
                  (λ p : bytes * string, head p.1 = Some Byte.x1b ∧ 2 ≤ length p.1 ≤ 3) _)).
  repeat (constructor; [simpl; split; [reflexivity | lia]|]). constructor.
Qed.

(** Nothing longer than a shipped entry is found where that entry occurs. *)
Lemma shipped_no_longer (data : bytes) (pos k : nat) :
  3 < k → pos + k ≤ length data → slice data pos (pos + k) ∉ dom ESCP_COMMANDS.
Proof.
  intros Hk Hlen [d Hd]%elem_of_dom.
  apply shipped_keys in Hd as [_ Hd]. rewrite length_slice in Hd by lia. lia.
Qed.

(** ** Commands before and after a cursor position *)

Section Around.

Variable table : gmap bytes string.
Variable data : bytes.

Lemma runs_reported_ok n fr fr' :
  runs table data n fr fr' → reported_ok table data fr → reported_ok table data fr'.
Proof.
  induction 1 as [fr | n fr fr1 fr2 _ Hbody _ IH]; intros Hok; [exact Hok|].
  rewrite body_decode in Hbody. injection Hbody as <-.
  apply IH, reported_ok_step, Hok.
Qed.

Lemma commit_appends e fr :
  ∃ new, parsed_commands (commit e fr) = parsed_commands fr ++ new
         ∧ Forall (λ c, position c = i fr) new.
Proof.
  destruct e; simpl.
  - exists []. rewrite app_nil_r. split; [reflexivity | constructor].
  - exists []. rewrite app_nil_r. split; [reflexivity | constructor].
  - eexists [_]. split; [reflexivity|]. repeat constructor.
Qed.

(** From any frame on, the loop only appends commands, all at or after the
    cursor it started from. *)
Lemma while_loop_appends fuel fr :
  length data - i fr ≤ fuel →
  ∃ fr' rest,
    while_loop table fuel data fr = Ok fr'
    ∧ parsed_commands fr' = parsed_commands fr ++ rest
    ∧ Forall (λ c, i fr ≤ position c) rest.
Proof.
  intros Hfuel.
  destruct (while_loop_inv table
              (λ fr', i fr ≤ i fr'
                      ∧ ∃ rest, parsed_commands fr' = parsed_commands fr ++ rest
                                ∧ Forall (λ c, i fr ≤ position c) rest)
              data) with (fuel := fuel) (fr := fr)
    as (fr' & Hloop & [_ (rest & Hrest & Hall)] & _).
  - intros fr1 [Hle (rest & Hrest & Hall)] _.
    destruct (commit_appends (decode table data (i fr1)) fr1) as (new & Hnew & Hpos).
    split; [rewrite i_commit; lia|].
    exists (rest ++ new). rewrite Hnew, Hrest, app_assoc. split; [reflexivity|].
    apply Forall_app. split; [exact Hall|].
    eapply Forall_impl; [exact Hpos|]. simpl. intros c ->. exact Hle.
  - split; [lia|]. exists []. rewrite app_nil_r. split; [reflexivity | constructor].
  - exact Hfuel.
  - exists fr', rest. split_and!; assumption.
Qed.

Lemma filter_position_none (offset : nat) (l : list cmd_info) :
  Forall (λ c, position c ≠ offset) l → filter (λ c, position c = offset) l = [].
Proof.
  induction 1 as [|c l Hc _ IH]; [reflexivity|].
  rewrite filter_cons_False by exact Hc. exact IH.
Qed.

(** If after [n] iterations the body appends exactly [c] at the cursor, then
    [c] is the one command the call reports at that position. *)
Lemma reported_once self n fr fr' c :
  runs table data n (start self) fr →
  i fr < length data →
  body table data fr = Ok fr' →
  parsed_commands fr' = parsed_commands fr ++ [c] →
  position c = i fr →
  ∃ cmds self',
    parse_packet table self data = Ok (cmds, self')
    ∧ filter (λ c', position c' = i fr) cmds = [c].
Proof.
  intros Hruns Hlt Hbody Hparsed Hpos.
  pose proof (runs_snoc _ _ _ _ _ _ Hruns Hlt Hbody) as Hruns'.
  pose proof (runs_cursor _ _ _ _ _ Hruns) as Hn. simpl in Hn.
  pose proof (runs_cursor _ _ _ _ _ Hruns') as Hn'. simpl in Hn'.
  assert (reported_ok table data fr) as [_ Hbefore].
  { eapply runs_reported_ok; [exact Hruns|]. split; simpl; constructor. }
  destruct (while_loop_appends (length data - S n) fr') as (fin & rest & Hloop & Hfin & Hafter);
    [lia|].
  exists (parsed_commands fin), (self_ fin). split.
  - unfold parse_packet. fold (start self).
    replace (length data) with (S n + (length data - S n)) at 1 by lia.
    rewrite (runs_while_loop _ _ _ _ _ Hruns'), Hloop. reflexivity.
  - rewrite Hfin, Hparsed, !filter_app.
    rewrite (filter_position_none (i fr) (parsed_commands fr)).
    + rewrite (filter_position_none (i fr) rest).
      * rewrite filter_cons_True by exact Hpos. reflexivity.
      * eapply Forall_impl; [exact Hafter|]. simpl. intros c' Hc'.
        rewrite body_decode in Hbody. injection Hbody as <-.
        rewrite i_commit in Hc'.
        pose proof (advance_decode_pos table data (i fr)). lia.
    + eapply Forall_impl; [exact Hbefore|]. simpl. intros c' [Hc' _]. lia.
Qed.

End Around.

(** ** Parameter extraction *)

Lemma slice_lookup (data : bytes) (lo hi j : nat) :
  lo + j < hi → slice data lo hi !! j = data !! (lo + j).
Proof.
  intros H. unfold slice. rewrite lookup_take_lt by lia. apply lookup_drop.
Qed.

Lemma byte_at_lookup (data : bytes) (k : nat) (b : byte) :
  data !! k = Some b → byte_at data k = Byte.to_nat b.
Proof. intros H. unfold byte_at. rewrite H. reflexivity. Qed.

(** For any table: a compound command that is the first hit at a cursor
    position the loop reaches, followed by a length field of value [N >= 1]
    and [N] bytes. *)
Lemma compound_params_general (table : gmap bytes string) (self : ESCPParser)
    (data : bytes) (n : nat) (fr : frame) (k N : nat) (d : string) :
  runs table data n (start self) fr →
  data !! i fr = Some Byte.x1b →
  3 ≤ k ≤ 5 →
  table !! slice data (i fr) (i fr + k) = Some d →
  (∀ k', k < k' ≤ 5 → i fr + k' ≤ length data →
         slice data (i fr) (i fr + k') ∉ dom table) →
  N = byte_at data (i fr + k) + 256 * byte_at data (i fr + k + 1) →
  1 ≤ N →
  i fr + k + 2 + N ≤ length data →
  let payload := slice data (i fr + k + 2) (i fr + k + 2 + N) in
  let c := {| position := i fr;
              command := hex (slice data (i fr) (i fr + k));
              description := d;
              parameters := hex payload |} in
  ∃ fr' cmds self',
    body table data fr = Ok fr'
    ∧ i fr' = i fr + k + 2 + N
    ∧ parsed_commands fr' = parsed_commands fr ++ [c]
    ∧ length payload = N
    ∧ parse_packet table self data = Ok (cmds, self')
    ∧ filter (λ c', position c' = i fr) cmds = [c].
Proof.
  intros Hruns Hesc Hk Hd Hlonger HN Hpos Hfit payload c.
  destruct (body_match table data fr k d Hesc) as (n' & Hn' & Hbody);
    try assumption; [lia | lia |].
  rewrite param_len_little_endian, <- HN in Hn' by lia. injection Hn' as <-.
  destruct (read_params_fit data (i fr) k N) as [Hparams Hlen]; [lia | lia |].
  rewrite Hparams in Hbody, Hlen. fold payload in Hbody, Hlen.
  rewrite info_of_params in Hbody by (intros Hnil; rewrite Hnil in Hlen; simpl in Hlen; lia).
  fold c in Hbody.
  rewrite (bool_decide_eq_true_2 (0 < N)) in Hbody by lia.
  assert (i fr < length data) as Hlt by lia.
  destruct (reported_once table data self n fr _ c Hruns Hlt Hbody eq_refl eq_refl)
    as (cmds & self' & Hparse & Hfilter).
  eexists _, cmds, self'. split; [exact Hbody|]. simpl.
  split_and!; [lia | reflexivity | exact Hlen | exact Hparse | exact Hfilter].
Qed.

(** C1, as the code has it: when the cursor of [parse_packet] arrives at an
    offset where the buffer holds a compound prefix [P] (3 bytes or more) of
    the command table, then two length bytes of little-endian value [N] with
    [N >= 1], then at least [N] bytes, that iteration appends one command
    whose parameters are exactly those [N] bytes and leaves the cursor at
    [offset + len(P) + 2 + N]; it is the only command the call reports at
    that offset. *)
Theorem compound_params_extracted (self : ESCPParser) (data P : bytes) (d : string)
    (n : nat) (fr : frame) (lo hi : byte) (N : nat) :
  runs ESCP_COMMANDS data n (start self) fr →
  ESCP_COMMANDS !! P = Some d →
  3 ≤ length P →
  slice data (i fr) (i fr + length P) = P →
  data !! (i fr + length P) = Some lo →
  data !! (i fr + length P + 1) = Some hi →
  N = Byte.to_nat lo + 256 * Byte.to_nat hi →
  1 ≤ N →
  i fr + length P + 2 + N ≤ length data →
  let payload := slice data (i fr + length P + 2) (i fr + length P + 2 + N) in
  let c := {| position := i fr; command := hex P; description := d;
              parameters := hex payload |} in
  ∃ fr' cmds self',
    body ESCP_COMMANDS data fr = Ok fr'
    ∧ i fr' = i fr + length P + 2 + N
    ∧ parsed_commands fr' = parsed_commands fr ++ [c]
    ∧ length payload = N
    ∧ parse_packet ESCP_COMMANDS self data = Ok (cmds, self')
    ∧ filter (λ c', position c' = i fr) cmds = [c].
Proof.
  intros Hruns HP Hlen3 Hslice Hlo Hhi HN Hpos Hfit.
  destruct (shipped_keys P d HP) as [Hhead Hlen].
  assert (data !! i fr = Some Byte.x1b) as Hesc.
  { rewrite <- Hhead, head_lookup, <- Hslice, slice_lookup by lia. f_equal. lia. }
  assert (3 ≤ length P ≤ 5) as Hk by lia.
  assert (ESCP_COMMANDS !! slice data (i fr) (i fr + length P) = Some d) as HP'
    by (rewrite Hslice; exact HP).
  assert (∀ k', length P < k' ≤ 5 → i fr + k' ≤ length data →
                slice data (i fr) (i fr + k') ∉ dom ESCP_COMMANDS) as Hlonger
    by (intros k' Hk' Hin; apply shipped_no_longer; lia).
  assert (N = byte_at data (i fr + length P) + 256 * byte_at data (i fr + length P + 1)) as HN'
    by (rewrite (byte_at_lookup _ _ _ Hlo), (byte_at_lookup _ _ _ Hhi); exact HN).
  pose proof (compound_params_general ESCP_COMMANDS self data n fr (length P) N d
                Hruns Hesc Hk HP' Hlonger HN' Hpos Hfit) as H.
  rewrite Hslice in H. exact H.
Qed.

(** Witness for C1: [41 ESC ( G 02 00 AA BB ESC @]; after one iteration the
    cursor is at offset 1, where [ESC ( G] stands with a length field of 2. *)
Lemma compound_params_extracted_witness :
  let data := [Byte.x41; Byte.x1b; Byte.x28; Byte.x47; Byte.x02; Byte.x00;
               Byte.xaa; Byte.xbb; Byte.x1b; Byte.x40] in
  let c := {| position := 1; command := "1b2847";
              description := "Select graphics mode"; parameters := "aabb" |} in
  ∃ fr' cmds self',
    body ESCP_COMMANDS data {| i := 1; parsed_commands := []; self_ := init |} = Ok fr'
    ∧ i fr' = 8
    ∧ parsed_commands fr' = [c]
    ∧ length [Byte.xaa; Byte.xbb] = 2
    ∧ parse_packet ESCP_COMMANDS init data = Ok (cmds, self')
    ∧ filter (λ c', position c' = 1) cmds = [c].
Proof.
  intros data c.
  apply (compound_params_extracted init data [Byte.x1b; Byte.x28; Byte.x47]
           "Select graphics mode" 1
           {| i := 1; parsed_commands := []; self_ := init |}
           Byte.x02 Byte.x00 2).
  - econstructor; [simpl; lia | vm_compute; reflexivity | constructor].
  - vm_compute. reflexivity.
  - simpl. lia.
  - reflexivity.
  - reflexivity.
  - reflexivity.
  - reflexivity.
  - lia.
  - simpl. lia.
Defined.

(** Counterexample to C1 as stated: in [ESC ( G 00 00 41] the compound prefix
    [ESC ( G] at offset 0 is followed by a length field of value [N = 0] and
    by at least 0 bytes, but the cursor after the command is 3, not
    [0 + 3 + 2 + 0]. *)
Lemma zero_length_counterexample :
  let data := [Byte.x1b; Byte.x28; Byte.x47; Byte.x00; Byte.x00; Byte.x41] in
  ¬ (∀ fr', ESCP_COMMANDS !! slice data 0 3 = Some "Select graphics mode" →
            byte_at data 3 + 256 * byte_at data 4 = 0 →
            0 + 3 + 2 + 0 ≤ length data →
            body ESCP_COMMANDS data (start init) = Ok fr' →
            i fr' = 0 + 3 + 2 + 0).
Proof.
  intros data Hclaim.
  specialize (Hclaim {| i := 3;
                        parsed_commands := [info_of 0 [Byte.x1b; Byte.x28; Byte.x47]
                                              "Select graphics mode" []];
                        self_ := count_command [Byte.x1b; Byte.x28; Byte.x47] init |}).
  assert (3 = 0 + 3 + 2 + 0) as Habs; [|discriminate Habs].
  apply Hclaim.
  - vm_compute. reflexivity.
  - reflexivity.
  - simpl. lia.
  - vm_compute. reflexivity.
Qed.

(** ** Coverage of the buffer *)

Lemma chain_app (start : nat) (a b : list (nat * nat)) :
  chain start (a ++ b)
  = match chain start a with Some m => chain m b | None => None end.
Proof.
  revert start. induction a as [|[lo hi] a IH]; intros start; simpl; [reflexivity|].
  destruct (bool_decide (lo = start) && bool_decide (lo < hi)); [apply IH | reflexivity].
Qed.

Section Coverage.

Variable table : gmap bytes string.
Variable data : bytes.

Lemma events_step fuel pos :
  pos < length data →
  events table (S fuel) data pos
  = (pos, decode table data pos)
    :: events table fuel data (pos + advance (decode table data pos)).
Proof. intros H. simpl. rewrite bool_decide_eq_true_2 by exact H. reflexivity. Qed.

Lemma events_done fuel pos :
  length data ≤ pos → events table fuel data pos = [].
Proof.
  intros H. destruct fuel; simpl; [reflexivity|].
  rewrite bool_decide_eq_false_2 by lia. reflexivity.
Qed.

(** The spans of one iteration, in both readings, start at the cursor and are
    contiguous.  The recorded spans stay inside the buffer, and stop where
    the next iteration starts unless the match is truncated; then they stop
    at the end of the prefix, at least two bytes before the end of the
    buffer, while the cursor leaves the buffer. *)
Lemma chain_spans_of pos :
  pos < length data →
  let e := decode table data pos in
  ∃ m, chain pos (spans_of (pos, e)) = Some m
       ∧ chain pos (consumed_of (pos, e)) = Some (pos + advance e)
       ∧ m ≤ length data
       ∧ (truncated e = false → m = pos + advance e)
       ∧ (truncated e = true →
          ∃ cmd d n, e = Matched cmd d n []
                     ∧ 0 < n ∧ 3 ≤ length cmd
                     ∧ m = pos + length cmd
                     ∧ m + 2 ≤ length data
                     ∧ pos + advance e = m + 2 + n
                     ∧ length data < m + 2 + n).
Proof.
  intros Hlt e. subst e.
  destruct (decode_cases table data pos)
    as [[_ ->] | [(_ & _ & ->) | (_ & k & Hk & Hhit & _ & ->)]].
  - exists (pos + 1). unfold spans_of, consumed_of. simpl.
    rewrite !bool_decide_eq_true_2 by lia. simpl.
    split_and!; [reflexivity | reflexivity | lia | reflexivity | discriminate].
  - exists (pos + 1). unfold spans_of, consumed_of. simpl.
    rewrite !bool_decide_eq_true_2 by lia. simpl.
    split_and!; [reflexivity | reflexivity | lia | reflexivity | discriminate].
  - pose proof (hit_length _ _ _ _ Hhit) as Hlen.
    pose proof Hhit as [Hin _]%andb_prop. apply bool_decide_eq_true_1 in Hin.
    assert (0 < param_len_at data pos k → 3 ≤ k ∧ pos + k + 2 ≤ length data) as Hfield.
    { unfold param_len_at.
      destruct (bool_decide (3 ≤ k)) eqn:H3; simpl; [|lia].
      destruct (bool_decide (pos + k + 1 < length data)) eqn:H1; simpl; [|lia].
      apply bool_decide_eq_true_1 in H3, H1. lia. }
    unfold match_at, spans_of, consumed_of. simpl. rewrite Hlen.
    rewrite !(bool_decide_eq_true_2 (pos = pos)) by reflexivity.
    rewrite !(bool_decide_eq_true_2 (pos < pos + k)) by lia. simpl.
    set (n := param_len_at data pos k) in *.
    destruct (decide (0 < n)) as [Hn|Hn].
    + rewrite !(bool_decide_eq_true_2 (0 < n)) by exact Hn. simpl.
      rewrite (bool_decide_eq_true_2 (pos + k = pos + k)) by reflexivity.
      rewrite (bool_decide_eq_true_2 (pos + k < pos + k + 2 + n)) by lia. simpl.
      destruct (decide (pos + k + 2 + n ≤ length data)) as [Hfit|Hno].
      * destruct (read_params_fit data pos k n Hn Hfit) as [_ Hplen].
        assert (read_params data pos k n ≠ []) as Hne
          by (intros Hnil; rewrite Hnil in Hplen; simpl in Hplen; lia).
        rewrite (bool_decide_eq_true_2 _ Hne), (bool_decide_eq_false_2 (_ = [])) by exact Hne.
        rewrite Hplen. simpl. rewrite !bool_decide_eq_true_2 by lia. simpl.
        exists (pos + k + 2 + n).
        split_and!; [reflexivity | f_equal; lia | lia | intros _; lia | discriminate].
      * rewrite (read_params_none data pos k n) by lia. simpl.
        exists (pos + k).
        split_and!; [reflexivity | f_equal; lia | lia | discriminate |].
        intros _. destruct (Hfield Hn) as [H3 Hroom].
        eexists _, _, n. rewrite Hlen.
        split_and!; [reflexivity | exact Hn | exact H3 | reflexivity | lia | lia | lia].
    + rewrite !(bool_decide_eq_false_2 (0 < n)) by exact Hn. simpl.
      rewrite (read_params_none data pos k n) by lia. simpl.
      exists (pos + k).
      split_and!; [reflexivity | f_equal; lia | lia | intros _; lia | discriminate].
Qed.

Lemma chain_events fuel pos :
  pos ≤ length data → length data - pos ≤ fuel →
  ∃ m final,
    chain pos (concat (map spans_of (events table fuel data pos))) = Some m
    ∧ chain pos (concat (map consumed_of (events table fuel data pos))) = Some final
    ∧ m ≤ length data ≤ final
    ∧ (Forall (λ pe, truncated pe.2 = false) (events table fuel data pos)
       → m = length data ∧ final = length data)
    ∧ (Exists (λ pe, truncated pe.2 = true) (events table fuel data pos)
       → ∃ p cmd d n,
           last (events table fuel data pos) = Some (p, Matched cmd d n [])
           ∧ 0 < n ∧ 3 ≤ length cmd
           ∧ m = p + length cmd
           ∧ m + 2 ≤ length data
           ∧ final = m + 2 + n
           ∧ length data < final).
Proof.
  revert pos. induction fuel as [|fuel IH]; intros pos Hle Hfuel.
  - exists pos, pos. rewrite events_done by lia. simpl.
    split_and!; [reflexivity | reflexivity | lia | lia | intros _; lia |].
    intros Hex. apply Exists_nil in Hex as [].
  - destruct (decide (pos < length data)) as [Hlt|Hge].
    + rewrite events_step by exact Hlt. simpl concat. rewrite !chain_app.
      destruct (chain_spans_of pos Hlt) as (m1 & -> & -> & Hm1 & Hok & Htrunc).
      pose proof (advance_decode_pos table data pos) as Hadv.
      destruct (truncated (decode table data pos)) eqn:Ht.
      * destruct (Htrunc eq_refl) as (cmd & d & n & He & Hn & H3 & Hm & Hroom & Hend & Hpast).
        rewrite (events_done fuel (pos + advance (decode table data pos))) by lia.
        exists m1, (pos + advance (decode table data pos)). simpl.
        split_and!; [reflexivity | reflexivity | lia | lia | |].
        -- intros Hall. apply Forall_cons_1 in Hall as [Hall _]. simpl in Hall. congruence.
        -- intros _. exists pos, cmd, d, n. rewrite He at 1.
           split_and!; [reflexivity | exact Hn | exact H3 | exact Hm | exact Hroom
                        | exact Hend | lia].
      * specialize (Hok eq_refl). rewrite <- Hok.
        destruct (decide (m1 ≤ length data)) as [Hin|Hout]; [|lia].
        destruct (IH m1) as (m & final & Hchain & Hcons & Hm & Hfull & Hcut); [lia | lia |].
        exists m, final.
        split_and!; [exact Hchain | exact Hcons | lia | lia | |].
        -- intros Hall. apply Forall_cons_1 in Hall as [_ Hall]. apply Hfull, Hall.
        -- intros Hex. apply Exists_cons in Hex as [Hhere | Hlater];
             [simpl in Hhere; congruence|].
           destruct (Hcut Hlater) as (p & cmd & d & n & Hlast & Hrest).
           exists p, cmd, d, n. split; [|exact Hrest].
           revert Hlast.
           destruct (events table fuel data m1) as [|pe rest]; [discriminate|].
           intros Hlast. exact Hlast.
    + exists pos, pos. rewrite events_done by lia. simpl.
      split_and!; [reflexivity | reflexivity | lia | lia | intros _; lia |].
      intros Hex. apply Exists_nil in Hex as [].
Qed.

End Coverage.

(** Spans that chain from [start] to [m] lie between the two. *)
Lemma chain_bounds (sp : list (nat * nat)) (start m : nat) :
  chain start sp = Some m →
  start ≤ m ∧ Forall (λ s, start ≤ s.1 ∧ s.1 < s.2 ∧ s.2 ≤ m) sp.
Proof.
  revert start. induction sp as [|[lo hi] sp IH]; intros start; simpl.
  - intros [= ->]. split; [lia | constructor].
  - destruct (bool_decide (lo = start)) eqn:Hlo; simpl; [|discriminate].
    destruct (bool_decide (lo < hi)) eqn:Hhi; simpl; [|discriminate].
    apply bool_decide_eq_true_1 in Hlo, Hhi. intros Hrest.
    destruct (IH hi Hrest) as [Hle Hall]. split; [lia|].
    constructor; [simpl; lia|].
    eapply Forall_impl; [exact Hall|]. simpl. intros s. lia.
Qed.

(** C5, as the code has it.  For every buffer, in both readings of a span:
    the matched prefixes, parameter regions and skipped single bytes of one
    [parse_packet] call follow one another from offset 0 without gap or
    overlap.  The recorded spans stop at some [m] inside the buffer and none
    reaches beyond [m]; the ranges the cursor passes stop at some [final] at
    or after the end of the buffer.  When no match has a declared parameter
    length that exceeds the bytes left, both stop exactly at the end of the
    buffer.  When some match has one, it is the last iteration: the recorded
    spans stop at the end of its prefix, at least two bytes before the end of
    the buffer, and the cursor stops [2 + param_len] after that, beyond the
    end of the buffer. *)
Theorem spans_tile_unless_truncated (table : gmap bytes string) (data : bytes) :
  ∃ m final,
    tiles (spans table data) m
    ∧ Forall (λ s, s.2 ≤ m) (spans table data)
    ∧ tiles (consumed table data) final
    ∧ m ≤ length data ≤ final
    ∧ (Forall (λ pe, truncated pe.2 = false) (trace table data)
       → tiles (spans table data) (length data)
         ∧ tiles (consumed table data) (length data))
    ∧ (Exists (λ pe, truncated pe.2 = true) (trace table data)
       → ∃ pos cmd d n,
           last (trace table data) = Some (pos, Matched cmd d n [])
           ∧ 0 < n ∧ 3 ≤ length cmd
           ∧ m = pos + length cmd
           ∧ m + 2 ≤ length data
           ∧ final = m + 2 + n
           ∧ length data < final
           ∧ ¬ tiles (spans table data) (length data)
           ∧ ¬ tiles (consumed table data) (length data)).
Proof.
  destruct (chain_events table data (length data) 0)
    as (m & final & Hchain & Hcons & Hm & Hfull & Hcut); [lia | lia |].
  exists m, final. unfold tiles, spans, consumed, trace in *.
  split; [exact Hchain|]. split.
  { apply chain_bounds in Hchain as [_ Hall].
    eapply Forall_impl; [exact Hall|]. simpl. intros s. lia. }
  split; [exact Hcons|]. split; [exact Hm|]. split.
  - intros Hall. destruct (Hfull Hall) as [-> ->]. split; assumption.
  - intros Hex.
    destruct (Hcut Hex) as (pos & cmd & d & n & Hlast & Hn & H3 & Hmp & Hroom & Hend & Hpast).
    exists pos, cmd, d, n.
    split_and!; [exact Hlast | exact Hn | exact H3 | exact Hmp | exact Hroom
                 | exact Hend | exact Hpast | |].
    + rewrite Hchain. intros [= Heq]. lia.
    + rewrite Hcons. intros [= Heq]. lia.
Qed.

(** Witness for C5, on the shipped table.  In
    [41 ESC ( G 02 00 AA BB ESC @ ESC FF] nothing is truncated and six spans
    cover the twelve bytes in both readings.  In [41 ESC ( G 05 00 42] the
    match at 1 declares five parameter bytes where one is left: the recorded
    spans stop at 4, three bytes before the end, and the cursor stops at
    11. *)
Lemma spans_tile_unless_truncated_witness :
  let full := [Byte.x41; Byte.x1b; Byte.x28; Byte.x47; Byte.x02; Byte.x00;
               Byte.xaa; Byte.xbb; Byte.x1b; Byte.x40; Byte.x1b; Byte.xff] in
  let cut := [Byte.x41; Byte.x1b; Byte.x28; Byte.x47; Byte.x05; Byte.x00; Byte.x42] in
  (spans ESCP_COMMANDS full = [(0, 1); (1, 4); (4, 8); (8, 10); (10, 11); (11, 12)]
   ∧ consumed ESCP_COMMANDS full = spans ESCP_COMMANDS full
   ∧ tiles (spans ESCP_COMMANDS full) 12
   ∧ tiles (consumed ESCP_COMMANDS full) 12)
  ∧ (spans ESCP_COMMANDS cut = [(0, 1); (1, 4)]
     ∧ consumed ESCP_COMMANDS cut = [(0, 1); (1, 4); (4, 11)]
     ∧ ∃ m final pos cmd d n,
         tiles (spans ESCP_COMMANDS cut) m
         ∧ tiles (consumed ESCP_COMMANDS cut) final
         ∧ last (trace ESCP_COMMANDS cut) = Some (pos, Matched cmd d n [])
         ∧ 0 < n ∧ 3 ≤ length cmd
         ∧ m = pos + length cmd
         ∧ m + 2 ≤ length cut
         ∧ final = m + 2 + n
         ∧ length cut < final).
Proof.
  intros full cut. split.
  - destruct (spans_tile_unless_truncated ESCP_COMMANDS full)
      as (m & final & _ & _ & _ & _ & Hfull & _).
    split; [vm_compute; reflexivity|]. split; [vm_compute; reflexivity|].
    apply Hfull. vm_compute. repeat constructor.
  - destruct (spans_tile_unless_truncated ESCP_COMMANDS cut)
      as (m & final & Hm & _ & Hfinal & _ & _ & Hcut).
    split; [vm_compute; reflexivity|]. split; [vm_compute; reflexivity|].
    destruct Hcut as (pos & cmd & d & n & Hlast & Hn & H3 & Hmp & Hroom & Hend & Hpast & _).
    { apply Exists_cons_tl, Exists_cons_hd. vm_compute. reflexivity. }
    exists m, final, pos, cmd, d, n.
    split_and!; assumption.
Defined.

(** Counterexample to C5 as stated: [ESC ( G 05 00 41].  The loop runs once
    and the call returns one command, with no parameters.  The only recorded
    span is the matched prefix [(0, 3)]: the three bytes after it are in no
    span.  The cursor passes over [(0, 3)] and [(3, 10)], a range that ends
    four offsets beyond the six bytes of the buffer.  In neither reading do
    the spans tile the buffer. *)
Lemma coverage_counterexample :
  let data := [Byte.x1b; Byte.x28; Byte.x47; Byte.x05; Byte.x00; Byte.x41] in
  trace ESCP_COMMANDS data
  = [(0, Matched [Byte.x1b; Byte.x28; Byte.x47] "Select graphics mode" 5 [])]
  ∧ (∃ self', parse_packet ESCP_COMMANDS init data
              = Ok ([ {| position := 0; command := "1b2847";
                         description := "Select graphics mode";
                         parameters := "" |} ], self'))
  ∧ spans ESCP_COMMANDS data = [(0, 3)]
  ∧ ¬ tiles (spans ESCP_COMMANDS data) (length data)
  ∧ consumed ESCP_COMMANDS data = [(0, 3); (3, 10)]
  ∧ ¬ tiles (consumed ESCP_COMMANDS data) (length data).
Proof.
  intros data.
  split; [vm_compute; reflexivity|].
  split; [eexists; vm_compute; reflexivity|].
  split; [vm_compute; reflexivity|].
  split; [vm_compute; discriminate|].
  split; [vm_compute; reflexivity|].
  vm_compute; discriminate.
Qed.

(** ** Statistics over several packets *)

Lemma record_event_comm (e1 e2 : event) (st : stats) :
  record_event e1 (record_event e2 st) = record_event e2 (record_event e1 st).
Proof.
  destruct st as [found unknown].
  destruct e1 as [|u1|c1 d1 n1 p1], e2 as [|u2|c2 d2 n2 p2]; simpl; try reflexivity.
  - f_equal. rewrite !(assoc_L (∪)), (comm_L (∪) {[u1]} {[u2]}). reflexivity.
  - destruct (decide (c1 = c2)) as [->|Hne]; [reflexivity|].
    rewrite !lookup_insert_ne by congruence.
    rewrite insert_insert_ne by congruence. reflexivity.
Qed.

Lemma record_events_cons (pe : nat * event) (es : list (nat * event)) (st : stats) :
  record_events (pe :: es) st = record_events es (record_event pe.2 st).
Proof. reflexivity. Qed.

Lemma record_event_events (e : event) (es : list (nat * event)) (st : stats) :
  record_event e (record_events es st) = record_events es (record_event e st).
Proof.
  revert st. induction es as [|pe es IH]; intros st; [reflexivity|].
  rewrite !record_events_cons, IH, record_event_comm. reflexivity.
Qed.

Lemma record_events_comm (es1 es2 : list (nat * event)) (st : stats) :
  record_events es1 (record_events es2 st) = record_events es2 (record_events es1 st).
Proof.
  revert st. induction es1 as [|pe es1 IH]; intros st; [reflexivity|].
  rewrite !record_events_cons, <- IH, record_event_events. reflexivity.
Qed.

Lemma foldl_comm_permutation {A B : Type} (f : A → B → A) (l l' : list B) :
  (∀ a x y, f (f a x) y = f (f a y) x) →
  l ≡ₚ l' → ∀ a, foldl f a l = foldl f a l'.
Proof.
  intros Hcomm. induction 1 as [|x l l' _ IH|x y l|l1 l2 l3 _ IH1 _ IH2]; intros a; simpl.
  - reflexivity.
  - apply IH.
  - rewrite Hcomm. reflexivity.
  - rewrite IH1. apply IH2.
Qed.

Section Statistics.

Variable table : gmap bytes string.

Lemma stats_commit (e : event) (fr : frame) :
  stats_of (self_ (commit e fr)) = record_event e (stats_of (self_ fr)).
Proof. destruct e; reflexivity. Qed.

Lemma stats_commits (es : list (nat * event)) (fr : frame) :
  stats_of (self_ (foldl (λ fr pe, commit pe.2 fr) fr es))
  = record_events es (stats_of (self_ fr)).
Proof.
  revert fr. induction es as [|pe es IH]; intros fr; [reflexivity|].
  simpl foldl. rewrite IH, stats_commit. reflexivity.
Qed.

(** The statistics after one buffer are those before it with the events of
    the buffer recorded; the events do not depend on the statistics. *)
Lemma parse_packet_stats (self : ESCPParser) (data : bytes) :
  ∃ cmds self',
    parse_packet table self data = Ok (cmds, self')
    ∧ stats_of self' = record_events (trace table data) (stats_of self).
Proof.
  rewrite parse_packet_events. eexists _, _. split; [reflexivity|].
  apply (stats_commits (trace table data) (start self)).
Qed.

Lemma process_packet_stats (self : ESCPParser) (p : packet) :
  ∃ self',
    process_packet table self p = Ok self'
    ∧ stats_of self' = record_events (trace table (pkt_data p)) (stats_of self).
Proof.
  destruct (parse_packet_stats self (pkt_data p)) as (cmds & self' & Hparse & Hstats).
  unfold process_packet. rewrite Hparse. simpl.
  case_bool_decide; eexists; (split; [reflexivity | exact Hstats]).
Qed.

Lemma process_packets_stats (ps : list packet) (self : ESCPParser) :
  ∃ self',
    process_packets table self ps = Ok self'
    ∧ stats_of self'
      = foldl (λ st p, record_events (trace table (pkt_data p)) st) (stats_of self) ps.
Proof.
  revert self. induction ps as [|p ps IH]; intros self.
  - exists self. split; reflexivity.
  - destruct (process_packet_stats self p) as (self1 & Hp & Hs1).
    destruct (IH self1) as (self' & Hps & Hs').
    exists self'. simpl. rewrite Hp. simpl. split; [exact Hps|].
    rewrite Hs', Hs1. reflexivity.
Qed.

End Statistics.

(** C9: feeding the same packets to one parser in any order gives the same
    final [commands_found] counts and the same [unknown_commands] set: both
    runs complete, and the two statistics are equal, for every permutation of
    the list of packets and every state the parser starts from. *)
Theorem statistics_order_independent (table : gmap bytes string) (self : ESCPParser)
    (ps ps' : list packet) :
  ps ≡ₚ ps' →
  ∃ s s',
    process_packets table self ps = Ok s
    ∧ process_packets table self ps' = Ok s'
    ∧ commands_found s = commands_found s'
    ∧ unknown_commands s = unknown_commands s'.
Proof.
  intros Hperm.
  destruct (process_packets_stats table ps self) as (s & Hs & Hstats).
  destruct (process_packets_stats table ps' self) as (s' & Hs' & Hstats').
  exists s, s'. split; [exact Hs|]. split; [exact Hs'|].
  assert (stats_of s = stats_of s') as Heq.
  { rewrite Hstats, Hstats'. apply foldl_comm_permutation; [|exact Hperm].
    intros st p q. apply record_events_comm. }
  unfold stats_of in Heq. injection Heq as H1 H2. split; assumption.
Qed.

(** Witness for C9: three packets fed in two different orders. *)
Lemma statistics_order_independent_witness :
  let p1 := {| pkt_timestamp := "t1"; pkt_direction := "OUT";
               pkt_data := [Byte.x1b; Byte.x40; Byte.x1b; Byte.xff] |} in
  let p2 := {| pkt_timestamp := "t2"; pkt_direction := "OUT";
               pkt_data := [Byte.x1b; Byte.x28; Byte.x47; Byte.x01; Byte.x00; Byte.x07;
                            Byte.x1b; Byte.x40] |} in
  let p3 := {| pkt_timestamp := "t3"; pkt_direction := "IN";
               pkt_data := [Byte.x00; Byte.x1b] |} in
  ∃ s s',
    process_packets ESCP_COMMANDS init [p1; p2; p3] = Ok s
    ∧ process_packets ESCP_COMMANDS init [p3; p1; p2] = Ok s'
    ∧ commands_found s = commands_found s'
    ∧ unknown_commands s = unknown_commands s'.
Proof.
  intros p1 p2 p3.
  apply (statistics_order_independent ESCP_COMMANDS init [p1; p2; p3] [p3; p1; p2]).
  change [p3; p1; p2] with ([p3] ++ [p1; p2]).
  change [p1; p2; p3] with ([p1; p2] ++ [p3]).
  apply Permutation_app_comm.
Defined.

(** * Further properties *)

(** ** Hexadecimal text *)

Lemma hex_value_hex_digit (n : nat) :
  n < 16 → hex_value (hex_digit n) = Some n.
Proof.
  intros H. do 16 (destruct n as [|n]; [reflexivity|]). lia.
Qed.

Lemma hex_digit_not_space (n : nat) : is_space (hex_digit n) = false.
Proof. do 16 (destruct n as [|n]; [reflexivity|]). reflexivity. Qed.

Lemma hex_digit_not_blank (n : nat) : hex_digit n ≠ " "%char.
Proof. do 16 (destruct n as [|n]; [discriminate|]). discriminate. Qed.

Lemma byte_nibbles (b : byte) :
  Byte.to_nat b / 16 < 16
  ∧ Byte.to_nat b mod 16 < 16
  ∧ Byte.of_nat (16 * (Byte.to_nat b / 16) + Byte.to_nat b mod 16) = Some b.
Proof.
  pose proof (Byte.to_nat_bounded b) as Hb.
  split; [apply Nat.Div0.div_lt_upper_bound; lia|].
  split; [apply Nat.mod_upper_bound; lia|].
  rewrite <- Nat.div_mod_eq. apply Byte.of_to_nat.
Qed.

Lemma fromhex_of_hex (bs : bytes) : fromhex (hex bs) = Some bs.
Proof.
  induction bs as [|b bs IH]; [reflexivity|].
  destruct (byte_nibbles b) as (Hhi & Hlo & Hof).
  cbn [hex fromhex].
  rewrite hex_digit_not_space, (hex_value_hex_digit _ Hhi),
    (hex_value_hex_digit _ Hlo), Hof, IH.
  reflexivity.
Qed.

(** X1: [bytes.fromhex] undoes [bytes.hex]: the [command] and [parameters]
    texts of a reported command decode back to the bytes they were made
    from, and two byte strings with the same hex text are equal. *)
Theorem fromhex_hex (bs : bytes) :
  fromhex (hex bs) = Some bs ∧ ∀ bs', hex bs' = hex bs → bs' = bs.
Proof.
  split; [apply fromhex_of_hex|].
  intros bs' H. apply (f_equal fromhex) in H.
  rewrite !fromhex_of_hex in H. injection H as ->. reflexivity.
Qed.

(** Distinct byte strings have distinct hex texts. *)
Lemma hex_inj (a b : bytes) : hex a = hex b → a = b.
Proof.
  intros H. apply (f_equal fromhex) in H. rewrite !fromhex_of_hex in H.
  injection H as ->. reflexivity.
Qed.

Lemma hex_nil_inv (bs : bytes) : hex bs = "" → bs = [].
Proof. destruct bs; [reflexivity | discriminate]. Qed.

Lemma remove_spaces_append (a b : string) :
  remove_spaces (String.append a b)
  = String.append (remove_spaces a) (remove_spaces b).
Proof.
  induction a as [|c a IH]; simpl; [reflexivity|].
  case_bool_decide; simpl; rewrite IH; reflexivity.
Qed.

Lemma remove_spaces_hex (bs : bytes) : remove_spaces (hex bs) = hex bs.
Proof.
  induction bs as [|b bs IH]; [reflexivity|]. simpl.
  rewrite !bool_decide_eq_false_2 by apply hex_digit_not_blank.
  rewrite IH. reflexivity.
Qed.

Lemma hex_cons (b : byte) (bs : bytes) :
  hex (b :: bs) = String.append (hex [b]) (hex bs).
Proof. reflexivity. Qed.

(** The spaces are the only difference between the two formats. *)
Lemma remove_spaces_spaced_hex (data : bytes) :
  remove_spaces (spaced_hex data) = hex data.
Proof.
  unfold spaced_hex.
  induction data as [|b [|b' data] IH]; [reflexivity | apply (remove_spaces_hex [b]) |].
  change (map (λ b0, hex [b0]) (b :: b' :: data))
    with (hex [b] :: map (λ b0, hex [b0]) (b' :: data)).
  change (join " " (hex [b] :: map (λ b0, hex [b0]) (b' :: data)))
    with (String.append (hex [b])
            (String.append " " (join " " (map (λ b0, hex [b0]) (b' :: data))))).
  rewrite !remove_spaces_append, IH, (remove_spaces_hex [b]).
  reflexivity.
Qed.

Lemma hex_value_bound (c : ascii) (v : nat) : hex_value c = Some v → v < 16.
Proof.
  unfold hex_value. repeat case_bool_decide; intros Hv; inversion Hv; lia.
Qed.

Lemma hex_digit_char_not_space (c : ascii) :
  is_Some (hex_value c) → is_space c = false.
Proof.
  unfold hex_value, is_space. intros [v Hv].
  repeat case_bool_decide; simpl; try reflexivity; try discriminate; lia.
Qed.

Lemma byte_of_nat_some (n : nat) : n ≤ 255 → is_Some (Byte.of_nat n).
Proof.
  intros H. pose proof (Byte.to_of_nat_option_map n) as Hn.
  rewrite (proj2 (Nat.leb_le n 255) H) in Hn.
  destruct (Byte.of_nat n); [eauto | discriminate].
Qed.

Lemma fromhex_digits_upto (n : nat) (s : string) :
  String.length s ≤ n →
  Forall (λ c, is_Some (hex_value c)) (list_ascii_of_string s) →
  (Nat.even (String.length s) = true →
     ∃ bs, fromhex s = Some bs ∧ 2 * length bs = String.length s)
  ∧ (Nat.even (String.length s) = false → fromhex s = None).
Proof.
  revert s. induction n as [|n IH]; intros s Hlen Hall.
  - destruct s; [|simpl in Hlen; lia]. split; [|discriminate].
    intros _. exists []. split; reflexivity.
  - destruct s as [|c [|c' s]].
    + split; [|discriminate]. intros _. exists []. split; reflexivity.
    + apply Forall_cons_1 in Hall as [Hc _].
      split; [discriminate|]. intros _. cbn [fromhex].
      rewrite (hex_digit_char_not_space c Hc). destruct (hex_value c); reflexivity.
    + apply Forall_cons_1 in Hall as [Hc Hall].
      apply Forall_cons_1 in Hall as [Hc' Hall].
      pose proof (hex_digit_char_not_space c Hc) as Hsp.
      destruct Hc as [top Htop], Hc' as [bot Hbot].
      pose proof (hex_value_bound _ _ Htop). pose proof (hex_value_bound _ _ Hbot).
      destruct (byte_of_nat_some (16 * top + bot)) as [b Hb]; [lia|].
      destruct (IH s) as [Heven Hodd]; [simpl in Hlen; lia | exact Hall |].
      cbn [fromhex String.length]. rewrite Hsp, Htop, Hbot, Hb.
      change (Nat.even (S (S (String.length s)))) with (Nat.even (String.length s)).
      split.
      * intros He. destruct (Heven He) as (bs & -> & Hbs).
        exists (b :: bs). split; [reflexivity | simpl; lia].
      * intros Ho. rewrite (Hodd Ho). reflexivity.
Qed.

(** X3: on text made of hexadecimal digits only, [bytes.fromhex] succeeds
    exactly when the number of digits is even, and then yields one byte per
    two digits; an odd number of digits is a [ValueError]. *)
Theorem fromhex_digits (s : string) :
  Forall (λ c, is_Some (hex_value c)) (list_ascii_of_string s) →
  (Nat.even (String.length s) = true →
     ∃ bs, fromhex s = Some bs ∧ 2 * length bs = String.length s)
  ∧ (Nat.even (String.length s) = false → fromhex s = None).
Proof. apply (fromhex_digits_upto (String.length s)). lia. Qed.

(** Witness for X3: four digits decode to two bytes, three digits fail. *)
Lemma fromhex_digits_witness :
  (∃ bs, fromhex "1B40" = Some bs ∧ 2 * length bs = 4)
  ∧ fromhex "1b4" = None.
Proof.
  split.
  - apply (proj1 (fromhex_digits "1B40" ltac:(repeat constructor; vm_compute; eauto))).
    reflexivity.
  - apply (proj2 (fromhex_digits "1b4" ltac:(repeat constructor; vm_compute; eauto))).
    reflexivity.
Defined.

(** ** Bytes from integer lists *)

Lemma to_byte_of_byte (b : byte) :
  to_byte (PInt (Z.of_nat (Byte.to_nat b))) = Conv b.
Proof.
  pose proof (Byte.to_nat_bounded b) as Hb. unfold to_byte.
  rewrite bool_decide_eq_true_2 by lia.
  rewrite Nat2Z.id, Byte.of_to_nat. reflexivity.
Qed.

Lemma to_bytes_of_tolist (data : bytes) : to_bytes (tolist data) = Conv data.
Proof.
  induction data as [|b data IH]; [reflexivity|].
  unfold tolist in *. cbn [map to_bytes]. rewrite to_byte_of_byte, IH. reflexivity.
Qed.

(** X4: [bytes(data.tolist())] is [data]: the integer list the capture tool
    stores under ['data'] is turned back into the captured bytes by
    [parse_file], without an exception. *)
Theorem to_bytes_tolist (data : bytes) :
  to_bytes (tolist data) = Conv data
  ∧ length (tolist data) = length data.
Proof.
  split; [apply to_bytes_of_tolist|]. unfold tolist. apply length_map.
Qed.

Lemma to_bytes_conv (l : list pyval) (bs : bytes) :
  to_bytes l = Conv bs ↔ Forall2 (λ v b, to_byte v = Conv b) l bs.
Proof.
  revert bs. induction l as [|v l IH]; intros bs; simpl.
  - split; [intros H; injection H as <-; constructor | intros H; inversion H; reflexivity].
  - destruct (to_byte v) as [b|e] eqn:Hv.
    + destruct (to_bytes l) as [bs'|e] eqn:Hl.
      * split.
        -- intros H. injection H as <-. constructor; [exact Hv | apply IH; reflexivity].
        -- intros H. inversion H as [|? b' ? bs'' Hb Hrest]; subst.
           rewrite Hv in Hb. injection Hb as <-.
           apply IH in Hrest. injection Hrest as <-. reflexivity.
      * split; [discriminate|].
        intros H. inversion H as [|? b' ? bs'' Hb Hrest]; subst.
        apply IH in Hrest. discriminate.
    + split; [discriminate|].
      intros H. inversion H as [|? b' ? bs'' Hb Hrest]; subst.
      rewrite Hv in Hb. discriminate.
Qed.

(** X5: [bytes(l)] raises as soon as one element of the list is an integer
    outside [range(256)] or not an integer at all, wherever it stands in the
    list. *)
Theorem to_bytes_rejects (l : list pyval) (v : pyval) :
  v ∈ l →
  (∃ z, v = PInt z ∧ (z < 0 ∨ 256 ≤ z)%Z) ∨ v = PNotInt →
  ∃ e, to_bytes l = ConvError e.
Proof.
  intros Hin Hbad.
  destruct (to_bytes l) as [bs|e] eqn:Hl; [|eauto].
  apply to_bytes_conv in Hl.
  apply list_elem_of_lookup in Hin as [j Hj].
  destruct (Forall2_lookup_l _ _ _ _ _ Hl Hj) as (b & _ & Hb).
  destruct Hbad as [(z & -> & Hz) | ->]; simpl in Hb; [|discriminate].
  rewrite bool_decide_eq_false_2 in Hb by lia. discriminate.
Qed.

(** Witness for X5: 256 in the middle of a list. *)
Lemma to_bytes_rejects_witness :
  ∃ e, to_bytes [PInt 27; PInt 256; PInt 64] = ConvError e.
Proof.
  apply (to_bytes_rejects [PInt 27; PInt 256; PInt 64] (PInt 256)).
  - apply list_elem_of_lookup. exists 1. reflexivity.
  - left. exists 256%Z. split; [reflexivity | lia].
Defined.

(** ** The packet loop *)

Section PacketLoop.

Variable can_print : string → bool.
Variable table : gmap bytes string.

Lemma process_packet_ok (self : ESCPParser) (p : packet) :
  ∃ self', process_packet table self p = Ok self'.
Proof.
  destruct (process_packet_stats table self p) as (self' & H & _). eauto.
Qed.

Lemma parse_file_packets_app (self : ESCPParser) (ps1 ps2 : list jelem) :
  parse_file_packets can_print table self (ps1 ++ ps2)
  = if (parse_file_packets can_print table self ps1).1
    then parse_file_packets can_print table
           (parse_file_packets can_print table self ps1).2 ps2
    else parse_file_packets can_print table self ps1.
Proof.
  revert self. induction ps1 as [|[p|t|items|] ps1 IH]; intros self; [reflexivity|..];
    cbn [app parse_file_packets].
  - destruct (jp_data p) as [[s|l|t]|]; try apply IH.
    + destruct (fromhex (remove_spaces s)).
      * destruct (process_packet table self _); [apply IH | reflexivity | reflexivity].
      * destruct (can_print _); [apply IH | reflexivity].
    + destruct (to_bytes l); [|reflexivity].
      destruct (process_packet table self _); [apply IH | reflexivity | reflexivity].
    + destruct (can_print _); [apply IH | reflexivity].
  - destruct (contains "data" t); [reflexivity | apply IH].
  - destruct (bool_decide _); [reflexivity | apply IH].
  - reflexivity.
Qed.

(** One element that neither is skipped nor aborts is an object whose data
    converts to bytes; the loop then goes on from the state
    [process_packet] leaves. *)
Lemma parse_file_packets_cons (self : ESCPParser) (e : jelem) (rest : list jelem) :
  parse_file_packets can_print table self (e :: rest)
  = if aborts can_print e then (false, self)
    else if skipped can_print e then parse_file_packets can_print table self rest
    else parse_file_packets can_print table
           (parse_file_packets can_print table self [e]).2 rest.
Proof.
  destruct e as [p|t|items|]; cbn [parse_file_packets aborts skipped].
  - destruct (jp_data p) as [[s|l|t]|]; try reflexivity.
    + destruct (fromhex (remove_spaces s)) as [data|].
      * rewrite (bool_decide_eq_false_2 (Some data = None)) by discriminate. simpl.
        destruct (process_packet_ok self
                    {| pkt_timestamp := jp_timestamp p; pkt_direction := jp_direction p;
                       pkt_data := data |}) as [self' ->].
        reflexivity.
      * rewrite (bool_decide_eq_true_2 (None = None)) by reflexivity. simpl.
        destruct (can_print _); reflexivity.
    + destruct (to_bytes l) as [data|err]; [|reflexivity].
      destruct (process_packet_ok self
                  {| pkt_timestamp := jp_timestamp p; pkt_direction := jp_direction p;
                     pkt_data := data |}) as [self' ->].
      reflexivity.
    + destruct (can_print _); reflexivity.
  - destruct (contains "data" t); reflexivity.
  - destruct (bool_decide _); reflexivity.
  - reflexivity.
Qed.


End PacketLoop.

(** X2: [parse_file] takes the bytes of a packet in three spellings, as
    two-digit hexadecimal text, as two-digit hexadecimal text with a space
    between the bytes (the format line 69 names) and as a list of integers:
    for each of them the loop tokenizes exactly these bytes and goes on with
    the next packet from the state [parse_packet] and line 88 leave. *)
Theorem parse_file_accepts_spellings (can_print : string → bool)
    (table : gmap bytes string) (self : ESCPParser) (ts dir : string) (data : bytes)
    (rest : list jelem) :
  let object d := ElemObject {| jp_timestamp := ts; jp_direction := dir;
                                jp_data := Some d |} in
  ∃ self',
    process_packet table self
      {| pkt_timestamp := ts; pkt_direction := dir; pkt_data := data |} = Ok self'
    ∧ parse_file_packets can_print table self (object (DataStr (hex data)) :: rest)
      = parse_file_packets can_print table self' rest
    ∧ parse_file_packets can_print table self (object (DataStr (spaced_hex data)) :: rest)
      = parse_file_packets can_print table self' rest
    ∧ parse_file_packets can_print table self (object (DataList (tolist data)) :: rest)
      = parse_file_packets can_print table self' rest.
Proof.
  intros object.
  destruct (process_packet_ok table self
              {| pkt_timestamp := ts; pkt_direction := dir; pkt_data := data |})
    as [self' Hp].
  exists self'. split; [exact Hp|].
  unfold object. cbn [parse_file_packets jp_data jp_timestamp jp_direction].
  rewrite remove_spaces_spaced_hex, remove_spaces_hex, fromhex_of_hex, to_bytes_of_tolist.
  rewrite Hp. repeat split.
Qed.

(** X6: elements of the packet list that the loop passes over have no
    effect on [parse_file]: objects without a ['data'] key; objects whose
    data is neither text nor a list, or is text that is not valid
    hexadecimal, when the message about them can be printed; texts and lists
    in which ['data'] does not occur.  The returned value and the parser are
    the same as when those elements are removed from the file. *)
Theorem parse_file_ignores_skipped (can_print : string → bool)
    (table : gmap bytes string) (self : ESCPParser) (packets : list jelem) :
  parse_file_packets can_print table self
    (filter (λ e, skipped can_print e = false) packets)
  = parse_file_packets can_print table self packets.
Proof.
  revert self. induction packets as [|e ps IH]; intros self; [reflexivity|].
  destruct (skipped can_print e) eqn:He.
  - rewrite filter_cons_False by (rewrite He; discriminate).
    rewrite IH, (parse_file_packets_cons _ _ _ e), He.
    assert (aborts can_print e = false) as ->; [|reflexivity].
    destruct e as [p|t|items|]; cbn [skipped aborts] in *.
    + destruct (jp_data p) as [[s|l|t]|]; try reflexivity; try discriminate.
      * apply andb_prop in He as [-> ->]. reflexivity.
      * rewrite He. reflexivity.
    + destruct (contains "data" t); [discriminate | reflexivity].
    + destruct (bool_decide _); [discriminate | reflexivity].
    + discriminate.
  - rewrite filter_cons_True by exact He.
    rewrite (parse_file_packets_cons _ _ _ e ps).
    rewrite (parse_file_packets_cons _ _ _ e (filter _ ps)), He.
    destruct (aborts can_print e); [reflexivity|]. apply IH.
Qed.

(** X7: when the data of a packet is a list that [bytes()] rejects,
    [parse_file] returns [False] at that packet: the packets after it are
    never parsed, while everything recorded for the packets before it stays
    in the parser. *)
Theorem parse_file_aborts_on_bad_list (can_print : string → bool)
    (table : gmap bytes string) (self self1 : ESCPParser)
    (before after : list jelem) (p : jpacket) (l : list pyval) (e : pyerr) :
  parse_file_packets can_print table self before = (true, self1) →
  jp_data p = Some (DataList l) →
  to_bytes l = ConvError e →
  parse_file_packets can_print table self (before ++ ElemObject p :: after)
  = (false, self1).
Proof.
  intros Hbefore Hdata Hl.
  rewrite parse_file_packets_app, Hbefore. cbn [fst snd parse_file_packets].
  rewrite Hdata, Hl. reflexivity.
Qed.

(** Witness for X7: a good packet, a packet holding 300, a good packet. *)
Lemma parse_file_aborts_on_bad_list_witness :
  let good := ElemObject {| jp_timestamp := "t"; jp_direction := "OUT";
                            jp_data := Some (DataStr "1b 40") |} in
  let bad := {| jp_timestamp := "t"; jp_direction := "OUT";
                jp_data := Some (DataList [PInt 27; PInt 300]) |} in
  ∃ self1,
    unique_commands self1 = 1
    ∧ parse_file_packets (λ _, true) ESCP_COMMANDS init
        ([good] ++ ElemObject bad :: [good]) = (false, self1).
Proof.
  intros good bad. eexists. split; [|
    apply (parse_file_aborts_on_bad_list (λ _, true) ESCP_COMMANDS init _ [good] [good] bad
             [PInt 27; PInt 300] ValueError);
    [vm_compute; reflexivity | reflexivity | reflexivity]].
  vm_compute. reflexivity.
Defined.



(** X9: a file written by [capture_traffic] is read in full by
    [parse_file]: each recorded packet is converted back to its bytes and
    tokenized, the call returns [True], and the parser ends in the state
    reached by tokenizing the captured buffers one after the other. *)
Theorem parse_file_reads_captures (can_print : string → bool)
    (table : gmap bytes string) (self : ESCPParser) (ps : list packet) :
  ∃ s, process_packets table self ps = Ok s
       ∧ parse_file_packets can_print table self (map captured ps) = (true, s).
Proof.
  revert self. induction ps as [|p ps IH]; intros self.
  - exists self. split; reflexivity.
  - destruct (process_packet_ok table self p) as [self' Hp].
    destruct (IH self') as (s & Hs & Hfile).
    exists s. cbn [process_packets map parse_file_packets captured jp_data].
    rewrite to_bytes_of_tolist. cbn [jp_timestamp jp_direction].
    destruct p as [ts dir data]. simpl in *. rewrite Hp. simpl.
    split; [exact Hs | exact Hfile].
Qed.

(** ** Totals *)

Lemma total_count_command (cmd : bytes) (self : ESCPParser) :
  total_commands (count_command cmd self) = total_commands self + 1.
Proof.
  unfold total_commands, count_command. simpl.
  assert (∀ (m : gmap bytes nat) (j1 j2 : bytes) (z1 z2 y : nat),
            j1 ≠ j2 → m !! j1 = Some z1 → m !! j2 = Some z2 →
            z1 + (z2 + y) = z2 + (z1 + y)) as Hcomm by (intros; lia).
  destruct (commands_found self !! cmd) as [v|] eqn:Hv; simpl.
  - rewrite (map_fold_delete_L _ 0 cmd v (commands_found self) (Hcomm _) Hv).
    rewrite <- (insert_delete_eq (commands_found self)).
    rewrite map_fold_insert_L; [lia | apply Hcomm | apply lookup_delete_eq].
  - rewrite map_fold_insert_L; [lia | apply Hcomm | exact Hv].
Qed.

Lemma total_commit (e : event) (fr : frame) :
  total_commands (self_ (commit e fr)) + length (parsed_commands fr)
  = total_commands (self_ fr) + length (parsed_commands (commit e fr)).
Proof.
  destruct e; simpl; try reflexivity.
  rewrite total_count_command, length_app. simpl. lia.
Qed.

(** X10: one [parse_packet] call raises [sum(commands_found.values())], the
    total printed by [print_statistics], by exactly the number of commands
    it returns. *)
Theorem parse_packet_total (table : gmap bytes string) (self : ESCPParser) (data : bytes) :
  ∃ cmds self',
    parse_packet table self data = Ok (cmds, self')
    ∧ total_commands self' = total_commands self + length cmds.
Proof.
  destruct (while_loop_inv table
              (λ fr, total_commands (self_ fr)
                     = total_commands self + length (parsed_commands fr)) data)
    with (fuel := length data) (fr := start self) as (fr' & Hloop & Htotal & _).
  - intros fr Hfr _. pose proof (total_commit (decode table data (i fr)) fr). lia.
  - simpl. lia.
  - simpl. lia.
  - exists (parsed_commands fr'), (self_ fr'). split; [|exact Htotal].
    unfold parse_packet. fold (start self). rewrite Hloop. reflexivity.
Qed.

Section FileTotals.

Variable table : gmap bytes string.

Lemma commands_in_snoc (entries : list parsed_entry) (e : parsed_entry) :
  commands_in (entries ++ [e]) = commands_in entries + length (parsed_commands_of e).
Proof.
  unfold commands_in. rewrite sum_list_with_app. simpl. lia.
Qed.

Lemma parse_packet_keeps_parsed_data (self : ESCPParser) (data : bytes) :
  ∃ cmds self',
    parse_packet table self data = Ok (cmds, self')
    ∧ parsed_data self' = parsed_data self
    ∧ total_commands self' = total_commands self + length cmds.
Proof.
  destruct (while_loop_inv table
              (λ fr, parsed_data (self_ fr) = parsed_data self
                     ∧ total_commands (self_ fr)
                       = total_commands self + length (parsed_commands fr)) data)
    with (fuel := length data) (fr := start self) as (fr' & Hloop & [Hpd Htotal] & _).
  - intros fr [Hpd Hfr] _. split.
    + rewrite <- Hpd. destruct (decode table data (i fr)); reflexivity.
    + pose proof (total_commit (decode table data (i fr)) fr). lia.
  - split; [reflexivity | simpl; lia].
  - simpl. lia.
  - exists (parsed_commands fr'), (self_ fr'). split; [|split; assumption].
    unfold parse_packet. fold (start self). rewrite Hloop. reflexivity.
Qed.

(** What the parser must satisfy for its saved file to be coherent: the
    total of the counts is the number of commands kept in [parsed_data], and
    no kept entry is empty. *)
Lemma process_packet_coherent (self : ESCPParser) (p : packet) :
  total_commands self = commands_in (parsed_data self) →
  Forall (λ e, parsed_commands_of e ≠ []) (parsed_data self) →
  ∃ self', process_packet table self p = Ok self'
    ∧ total_commands self' = commands_in (parsed_data self')
    ∧ Forall (λ e, parsed_commands_of e ≠ []) (parsed_data self').
Proof.
  intros Htotal Hne.
  destruct (parse_packet_keeps_parsed_data self (pkt_data p))
    as (cmds & self1 & Hparse & Hpd & Ht).
  unfold process_packet. rewrite Hparse. simpl.
  case_bool_decide as Hcmds.
  - eexists. split; [reflexivity|]. simpl. rewrite Hpd, commands_in_snoc. simpl.
    split.
    + unfold total_commands in *. simpl. lia.
    + apply Forall_app. split; [exact Hne|]. constructor; [exact Hcmds | constructor].
  - exists self1. split; [reflexivity|]. rewrite Hpd.
    assert (cmds = []) as -> by (destruct (decide (cmds = [])); [assumption | contradiction]).
    simpl in Ht. split; [lia | exact Hne].
Qed.

Lemma parse_file_packets_coherent (can_print : string → bool)
    (packets : list jelem) (self : ESCPParser) :
  total_commands self = commands_in (parsed_data self) →
  Forall (λ e, parsed_commands_of e ≠ []) (parsed_data self) →
  let s := (parse_file_packets can_print table self packets).2 in
  total_commands s = commands_in (parsed_data s)
  ∧ Forall (λ e, parsed_commands_of e ≠ []) (parsed_data s).
Proof.
  revert self.
  induction packets as [|[p|t|items|] ps IH]; intros self Htotal Hne;
    [split; assumption|..]; cbn [parse_file_packets].
  - destruct (jp_data p) as [[s|l|t]|]; try (apply IH; assumption).
    + destruct (fromhex (remove_spaces s)) as [data|].
      * destruct (process_packet_coherent self
                    {| pkt_timestamp := jp_timestamp p; pkt_direction := jp_direction p;
                       pkt_data := data |} Htotal Hne) as (self' & -> & Ht & Hn).
        apply IH; assumption.
      * destruct (can_print _); [apply IH; assumption | split; assumption].
    + destruct (to_bytes l) as [data|e]; [|split; assumption].
      destruct (process_packet_coherent self
                  {| pkt_timestamp := jp_timestamp p; pkt_direction := jp_direction p;
                     pkt_data := data |} Htotal Hne) as (self' & -> & Ht & Hn).
      apply IH; assumption.
    + destruct (can_print _); [apply IH; assumption | split; assumption].
  - destruct (contains "data" t); [split; assumption | apply IH; assumption].
  - destruct (bool_decide _); [split; assumption | apply IH; assumption].
  - split; assumption.
Qed.

End FileTotals.

(** X11: after [parse_file] on a new parser, whatever the file and whether
    or not the call succeeded, the total of [commands_found] equals the
    number of commands kept in [parsed_data], no entry of [parsed_data] is
    empty, and so [parsed_data] is empty (and [save_parsed_data] refuses to
    save) exactly when no command was counted. *)
Theorem parse_file_totals_agree (can_print : string → bool)
    (table : gmap bytes string) (packets : list jelem) :
  let s := (parse_file_packets can_print table init packets).2 in
  total_commands s = commands_in (parsed_data s)
  ∧ Forall (λ e, parsed_commands_of e ≠ []) (parsed_data s)
  ∧ (parsed_data s = [] ↔ total_commands s = 0).
Proof.
  destruct (parse_file_packets_coherent table can_print packets init) as [Htotal Hne];
    [reflexivity | constructor |].
  intros s. fold s in Htotal, Hne. split; [exact Htotal|]. split; [exact Hne|].
  rewrite Htotal. split.
  - intros ->. reflexivity.
  - intros H0. destruct (parsed_data s) as [|e es]; [reflexivity|].
    apply Forall_cons_1 in Hne as [He _].
    unfold commands_in in H0. simpl in H0.
    destruct (parsed_commands_of e); [contradiction | simpl in H0; lia].
Qed.

(** ** Counts per command *)

#[local] Instance hex_injective : Inj (=) (=) hex.
Proof. intros a b. apply hex_inj. Qed.

Lemma count_commit (k : bytes) (e : event) (fr : frame) :
  default 0 (commands_found (self_ (commit e fr)) !! k)
  + length (filter (λ c, command c = hex k) (parsed_commands fr))
  = default 0 (commands_found (self_ fr) !! k)
    + length (filter (λ c, command c = hex k) (parsed_commands (commit e fr))).
Proof.
  destruct e as [|u|cmd d n params]; simpl; try reflexivity.
  rewrite filter_app, length_app.
  destruct (decide (cmd = k)) as [->|Hne].
  - rewrite lookup_insert_eq, filter_cons_True by reflexivity. simpl. lia.
  - rewrite lookup_insert_ne by exact Hne.
    rewrite filter_cons_False by (simpl; intros H; apply Hne, hex_inj, H).
    simpl. lia.
Qed.

Lemma key_commit (k : bytes) (e : event) (fr : frame) :
  is_Some (commands_found (self_ (commit e fr)) !! k)
  ↔ is_Some (commands_found (self_ fr) !! k)
    ∨ (∃ cmd d n params, e = Matched cmd d n params ∧ cmd = k).
Proof.
  destruct e as [|u|cmd d n params]; simpl.
  - split; [auto | intros [H | (? & ? & ? & ? & ? & _)]; [exact H | discriminate]].
  - split; [auto | intros [H | (? & ? & ? & ? & ? & _)]; [exact H | discriminate]].
  - destruct (decide (cmd = k)) as [->|Hne].
    + rewrite lookup_insert_eq. split; [|eauto].
      intros _. right. eauto 6.
    + rewrite lookup_insert_ne by exact Hne. split; [auto|].
      intros [H | (? & ? & ? & ? & Heq & Hk)]; [exact H|].
      injection Heq as <- _ _ _. contradiction.
Qed.

(** X12: for every table key [k], one [parse_packet] call raises the count
    of [k] in [commands_found] by exactly the number of returned commands
    whose [command] field is [k.hex()], and [k] is a key of [commands_found]
    afterwards exactly when it was one before or such a command was
    returned. *)
Theorem parse_packet_counts (table : gmap bytes string) (self : ESCPParser) (data : bytes) :
  ∃ cmds self',
    parse_packet table self data = Ok (cmds, self')
    ∧ ∀ k,
        default 0 (commands_found self' !! k)
        = default 0 (commands_found self !! k)
          + length (filter (λ c, command c = hex k) cmds)
        ∧ (is_Some (commands_found self' !! k)
           ↔ is_Some (commands_found self !! k) ∨ hex k ∈ map command cmds).
Proof.
  destruct (while_loop_inv table
              (λ fr, ∀ k,
                 default 0 (commands_found (self_ fr) !! k)
                 = default 0 (commands_found self !! k)
                   + length (filter (λ c, command c = hex k) (parsed_commands fr))
                 ∧ (is_Some (commands_found (self_ fr) !! k)
                    ↔ is_Some (commands_found self !! k)
                      ∨ hex k ∈ map command (parsed_commands fr))) data)
    with (fuel := length data) (fr := start self) as (fr' & Hloop & Hinv & _).
  - intros fr Hfr _ k. destruct (Hfr k) as [Hcount Hkey]. split.
    + pose proof (count_commit k (decode table data (i fr)) fr). lia.
    + rewrite key_commit, Hkey.
      destruct (decode table data (i fr)) as [|u|cmd d n params]; simpl.
      * split; [intros [H | (? & ? & ? & ? & ? & _)]; [exact H | discriminate] | auto].
      * split; [intros [H | (? & ? & ? & ? & ? & _)]; [exact H | discriminate] | auto].
      * rewrite map_app, elem_of_app. simpl. rewrite list_elem_of_singleton.
        split.
        -- intros [[H | H] | (? & ? & ? & ? & Heq & Hk)]; [auto | auto |].
           injection Heq as <- _ _ _. subst. auto.
        -- intros [H | [H | H]]; [auto | auto |].
           right. apply hex_inj in H as ->. eauto 6.
  - intros k. simpl. split; [lia|]. split; [auto|].
    intros [H | H]; [exact H | inversion H].
  - simpl. lia.
  - exists (parsed_commands fr'), (self_ fr'). split; [|exact Hinv].
    unfold parse_packet. fold (start self). rewrite Hloop. reflexivity.
Qed.

(** X13: the [command_frequency] dictionary written by [save_parsed_data]
    loses nothing: it maps [k.hex()] to the count of [k] for every key [k] of
    [commands_found], and has as many entries as [commands_found] (the
    [unique_commands] figure), since different keys have different hex
    texts. *)
Theorem command_frequency_faithful (self : ESCPParser) :
  (∀ k, command_frequency self !! hex k = commands_found self !! k)
  ∧ size (command_frequency self) = unique_commands self.
Proof.
  unfold command_frequency, unique_commands.
  set (m := commands_found self).
  set (l := map (λ kv : bytes * nat, (hex kv.1, kv.2)) (map_to_list m)).
  assert (l.*1 = hex <$> (map_to_list m).*1) as Hkeys.
  { unfold l. rewrite <- !list_fmap_compose. reflexivity. }
  assert (NoDup l.*1) as Hnodup.
  { rewrite Hkeys. apply NoDup_fmap_2; [apply _ | apply NoDup_fst_map_to_list]. }
  split.
  - intros k. destruct (m !! k) as [v|] eqn:Hk.
    + apply elem_of_list_to_map_1; [exact Hnodup|].
      apply (list_elem_of_fmap_2 (λ kv : bytes * nat, (hex kv.1, kv.2)) _ (k, v)).
      apply elem_of_map_to_list, Hk.
    + apply not_elem_of_list_to_map_1. rewrite Hkeys.
      intros (k' & Heq & Hin)%list_elem_of_fmap.
      apply hex_inj in Heq as <-.
      apply list_elem_of_fmap in Hin as ([k'' v] & -> & Hin).
      apply elem_of_map_to_list in Hin. simpl in Hk. congruence.
  - rewrite map_size_list_to_map by exact Hnodup.
    unfold l. rewrite length_map. apply length_map_to_list.
Qed.

(** ** Keys of the counts *)

Section Keys.

Variable table : gmap bytes string.

Lemma decode_matched_key data pos cmd d n params :
  decode table data pos = Matched cmd d n params → cmd ∈ dom table.
Proof.
  destruct (decode_cases table data pos)
    as [[_ ->] | [(_ & _ & ->) | (_ & k & _ & Hhit & _ & ->)]]; try discriminate.
  unfold match_at. intros H. injection H as <- _ _ _.
  unfold hit in Hhit. apply andb_prop in Hhit as [_ Hin].
  apply bool_decide_eq_true_1 in Hin. exact Hin.
Qed.

Lemma parse_packet_keys (self : ESCPParser) (data : bytes) :
  dom (commands_found self) ⊆ dom table →
  ∃ cmds self',
    parse_packet table self data = Ok (cmds, self')
    ∧ dom (commands_found self') ⊆ dom table.
Proof.
  intros Hself.
  destruct (while_loop_inv table
              (λ fr, dom (commands_found (self_ fr)) ⊆ dom table) data)
    with (fuel := length data) (fr := start self) as (fr' & Hloop & Hinv & _).
  - intros fr Hfr _.
    destruct (decode table data (i fr)) as [|u|cmd d n params] eqn:Hdec; simpl;
      try exact Hfr.
    rewrite dom_insert_L. apply decode_matched_key in Hdec.
    apply union_subseteq. split; [apply singleton_subseteq_l, Hdec | exact Hfr].
  - exact Hself.
  - simpl. lia.
  - exists (parsed_commands fr'), (self_ fr'). split; [|exact Hinv].
    unfold parse_packet. fold (start self). rewrite Hloop. reflexivity.
Qed.

Lemma process_packet_keys (self : ESCPParser) (p : packet) :
  dom (commands_found self) ⊆ dom table →
  ∃ self', process_packet table self p = Ok self'
           ∧ dom (commands_found self') ⊆ dom table.
Proof.
  intros Hself.
  destruct (parse_packet_keys self (pkt_data p) Hself) as (cmds & self1 & Hparse & Hkeys).
  unfold process_packet. rewrite Hparse. simpl.
  case_bool_decide; eexists; (split; [reflexivity | exact Hkeys]).
Qed.

Lemma parse_file_packets_keys (can_print : string → bool)
    (packets : list jelem) (self : ESCPParser) :
  dom (commands_found self) ⊆ dom table →
  dom (commands_found (parse_file_packets can_print table self packets).2) ⊆ dom table.
Proof.
  revert self.
  induction packets as [|[p|t|items|] ps IH]; intros self Hself; [exact Hself|..];
    cbn [parse_file_packets].
  - destruct (jp_data p) as [[s|l|t]|]; try (apply IH; assumption).
    + destruct (fromhex (remove_spaces s)) as [data|].
      * destruct (process_packet_keys self
                    {| pkt_timestamp := jp_timestamp p; pkt_direction := jp_direction p;
                       pkt_data := data |} Hself) as (self' & -> & Hk).
        apply IH; assumption.
      * destruct (can_print _); [apply IH; assumption | exact Hself].
    + destruct (to_bytes l) as [data|e]; [|exact Hself].
      destruct (process_packet_keys self
                  {| pkt_timestamp := jp_timestamp p; pkt_direction := jp_direction p;
                     pkt_data := data |} Hself) as (self' & -> & Hk).
      apply IH; assumption.
    + destruct (can_print _); [apply IH; assumption | exact Hself].
  - destruct (contains "data" t); [exact Hself | apply IH; assumption].
  - destruct (bool_decide _); [exact Hself | apply IH; assumption].
  - exact Hself.
Qed.

End Keys.

(** X14: after [parse_file] on a new parser every key of [commands_found]
    is a key of the command table, so the lookup
    [ESCP_COMMANDS.get(cmd, "Unknown")] of [print_statistics] never falls
    back to ["Unknown"], and the number of unique commands is at most the
    number of table entries. *)
Theorem counted_commands_are_table_keys (can_print : string → bool)
    (table : gmap bytes string) (packets : list jelem) :
  let s := (parse_file_packets can_print table init packets).2 in
  (∀ cmd, is_Some (commands_found s !! cmd) → is_Some (table !! cmd))
  ∧ unique_commands s ≤ size table.
Proof.
  intros s.
  assert (dom (commands_found s) ⊆ dom table) as Hdom.
  { apply parse_file_packets_keys. simpl. rewrite dom_empty_L. apply empty_subseteq. }
  split.
  - intros cmd Hcmd. apply elem_of_dom, Hdom, elem_of_dom, Hcmd.
  - unfold unique_commands. rewrite <- !size_dom. apply subseteq_size, Hdom.
Qed.

(** ** More on the tokenizer *)

(** X15: a buffer without any escape byte yields no command and leaves the
    parser as it was: nothing is counted and nothing is recorded as unknown
    (in particular for the empty buffer). *)
Theorem no_escape_no_effect (table : gmap bytes string) (self : ESCPParser) (data : bytes) :
  Byte.x1b ∉ data → parse_packet table self data = Ok ([], self).
Proof.
  intros Hno.
  destruct (while_loop_inv table
              (λ fr, parsed_commands fr = [] ∧ self_ fr = self) data)
    with (fuel := length data) (fr := start self) as (fr' & Hloop & [Hp Hs] & _).
  - intros fr [Hp Hs] _. rewrite decode_skip; [split; assumption|].
    intros Hesc. apply Hno. eapply list_elem_of_lookup_2, Hesc.
  - split; reflexivity.
  - simpl. lia.
  - unfold parse_packet. fold (start self). rewrite Hloop. simpl.
    rewrite Hp, Hs. reflexivity.
Qed.

(** Witness for X15: three bytes, none of them ESC. *)
Lemma no_escape_no_effect_witness :
  parse_packet ESCP_COMMANDS init [Byte.x28; Byte.x47; Byte.x40] = Ok ([], init).
Proof.
  apply (no_escape_no_effect ESCP_COMMANDS init [Byte.x28; Byte.x47; Byte.x40]).
  intros H. repeat (apply elem_of_cons in H as [H | H]; [discriminate|]).
  inversion H.
Defined.

Section Extents.

Variable table : gmap bytes string.
Variable data : bytes.

Lemma extent_info_of pos cmd d params :
  extent (info_of pos cmd d params)
  = length cmd + (if bool_decide (params = []) then 0 else 2 + length params).
Proof.
  unfold extent, info_of. cbn [command parameters].
  assert (∀ bs : bytes, String.length (hex bs) / 2 = length bs) as Hhalf.
  { intros bs. rewrite length_hex, Nat.mul_comm. apply Nat.div_mul. lia. }
  rewrite Hhalf. f_equal.
  destruct params as [|b params].
  - reflexivity.
  - rewrite (bool_decide_eq_true_2 (b :: params ≠ [])) by discriminate.
    rewrite (bool_decide_eq_false_2 (hex (b :: params) = "")) by discriminate.
    rewrite (bool_decide_eq_false_2 (b :: params = [])) by discriminate.
    rewrite Hhalf. reflexivity.
Qed.

(** The parameters of a match are absent, or the declared region in full. *)
Lemma read_params_cases pos k n :
  read_params data pos k n = []
  ∨ (0 < n ∧ pos + k + 2 + n ≤ length data
     ∧ read_params data pos k n = slice data (pos + k + 2) (pos + k + 2 + n)
     ∧ length (read_params data pos k n) = n).
Proof.
  destruct (decide (0 < n ∧ pos + k + 2 + n ≤ length data)) as [[Hn Hfit]|Hno].
  - right. destruct (read_params_fit data pos k n Hn Hfit) as [Heq Hlen].
    split_and!; assumption.
  - left. apply read_params_none. lia.
Qed.

(** What a match at [pos] looks like. *)
Lemma decode_matched pos cmd d n params :
  pos < length data →
  decode table data pos = Matched cmd d n params →
  ∃ k, 2 ≤ k ≤ 5 ∧ pos + k ≤ length data
       ∧ cmd = slice data pos (pos + k) ∧ length cmd = k
       ∧ read_param_len data pos k = Ok n
       ∧ params = read_params data pos k n.
Proof.
  intros Hlt.
  destruct (decode_cases table data pos)
    as [[_ ->] | [(_ & _ & ->) | (_ & k & Hk & Hhit & _ & ->)]]; try discriminate.
  unfold match_at. intros H. injection H as <- _ <- <-.
  exists k. pose proof (hit_length _ _ _ _ Hhit) as Hlen.
  unfold hit in Hhit. apply andb_prop in Hhit as [Hb _].
  apply bool_decide_eq_true_1 in Hb.
  split; [exact Hk|]. split; [exact Hb|]. split; [reflexivity|]. split; [exact Hlen|].
  split; [apply read_param_len_eq | reflexivity].
Qed.

(** Loop invariant: the reported commands, with their extents, lie one
    after the other below a bound that is inside the buffer and not beyond
    the cursor. *)
Lemma extents_inv fuel :
  length data ≤ fuel →
  ∀ self,
  ∃ fr' bound,
    while_loop table fuel data (start self) = Ok fr'
    ∧ bound ≤ length data
    ∧ 2 * length (parsed_commands fr') ≤ bound
    ∧ Forall (λ c, position c + extent c ≤ bound) (parsed_commands fr')
    ∧ StronglySorted (λ c1 c2, position c1 + extent c1 ≤ position c2)
        (parsed_commands fr').
Proof.
  intros Hfuel self.
  destruct (while_loop_inv table
              (λ fr, ∃ bound,
                 bound ≤ length data ∧ bound ≤ i fr
                 ∧ 2 * length (parsed_commands fr) ≤ bound
                 ∧ Forall (λ c, position c + extent c ≤ bound) (parsed_commands fr)
                 ∧ StronglySorted (λ c1 c2, position c1 + extent c1 ≤ position c2)
                     (parsed_commands fr)) data)
    with (fuel := fuel) (fr := start self)
    as (fr' & Hloop & (bound & Hb & _ & Hcount & Hall & Hsorted) & _).
  - intros fr (bound & Hb & Hbi & Hcount & Hall & Hsorted) Hlt.
    destruct (decode table data (i fr)) as [|u|cmd d n params] eqn:Hdec.
    + exists bound. simpl. split_and!; try assumption; lia.
    + exists bound. simpl. split_and!; try assumption; lia.
    + destruct (decode_matched _ _ _ _ _ Hlt Hdec) as (k & Hk & Hin & _ & Hlen & _ & Hparams).
      pose proof (extent_info_of (i fr) cmd d params) as Hext.
      assert (i fr + extent (info_of (i fr) cmd d params) ≤ length data
              ∧ i fr + extent (info_of (i fr) cmd d params) ≤ i fr + advance (Matched cmd d n params)
              ∧ k ≤ extent (info_of (i fr) cmd d params)) as (He1 & He2 & He3).
      { rewrite Hext, Hlen. simpl. rewrite Hlen.
        destruct (read_params_cases (i fr) k n) as [Hnil | (Hn & Hfit & _ & Hplen)];
          rewrite <- Hparams in *.
        - rewrite Hnil. simpl. split_and!; lia.
        - assert (params ≠ []) as Hne
            by (intros Hnil; rewrite Hnil in Hplen; simpl in Hplen; lia).
          rewrite (bool_decide_eq_false_2 _ Hne), (bool_decide_eq_true_2 (0 < n)) by exact Hn.
          rewrite Hplen. split_and!; lia. }
      exists (i fr + extent (info_of (i fr) cmd d params)).
      cbn [commit i parsed_commands].
      split; [exact He1|]. split; [exact He2|]. split.
      { rewrite length_app. simpl. lia. }
      split.
      * apply Forall_app. split.
        -- eapply Forall_impl; [exact Hall|]. simpl. intros c Hc. lia.
        -- constructor; [simpl; lia | constructor].
      * apply StronglySorted_app_2; [| exact Hsorted | repeat constructor].
        intros c1 c2 Hc1 Hc2. apply list_elem_of_singleton in Hc2 as ->.
        rewrite Forall_forall in Hall. specialize (Hall c1 Hc1). simpl. lia.
  - exists 0. simpl. split_and!; try lia; constructor.
  - simpl. lia.
  - exists fr', bound. split_and!; assumption.
Qed.

End Extents.

(** X16: the commands returned by one [parse_packet] call never overlap:
    each command's prefix, together with its length field and parameters
    when parameters were extracted, lies inside the buffer and ends at or
    before the position of the next command.  Bytes taken as parameters are
    never reported as a command. *)
Theorem reported_commands_disjoint (table : gmap bytes string) (self : ESCPParser)
    (data : bytes) :
  ∃ cmds self',
    parse_packet table self data = Ok (cmds, self')
    ∧ Forall (λ c, position c + extent c ≤ length data) cmds
    ∧ StronglySorted (λ c1 c2, position c1 + extent c1 ≤ position c2) cmds.
Proof.
  destruct (extents_inv table data (length data) (Nat.le_refl _) self)
    as (fr' & bound & Hloop & Hb & _ & Hall & Hsorted).
  exists (parsed_commands fr'), (self_ fr').
  unfold parse_packet. fold (start self). rewrite Hloop.
  split; [reflexivity|]. split; [|exact Hsorted].
  eapply Forall_impl; [exact Hall|]. simpl. intros c Hc. lia.
Qed.

(** X17: one [parse_packet] call returns at most one command for every two
    bytes of the buffer. *)
Theorem reported_commands_bounded (table : gmap bytes string) (self : ESCPParser)
    (data : bytes) :
  ∃ cmds self',
    parse_packet table self data = Ok (cmds, self')
    ∧ 2 * length cmds ≤ length data.
Proof.
  destruct (extents_inv table data (length data) (Nat.le_refl _) self)
    as (fr' & bound & Hloop & Hb & Hcount & _).
  exists (parsed_commands fr'), (self_ fr').
  unfold parse_packet. fold (start self). rewrite Hloop.
  split; [reflexivity | lia].
Qed.

Lemma length_slice_le_2 (data : bytes) (pos : nat) :
  length (slice data pos (pos + 2)) ≤ 2.
Proof. unfold slice. rewrite length_take. lia. Qed.

Section Fields.

Variable table : gmap bytes string.
Variable data : bytes.

(** A match whose parameters are present: the prefix has three bytes or
    more and the parameters are the region its length field declares. *)
Lemma match_with_params pos k n :
  pos + k ≤ length data →
  read_param_len data pos k = Ok n →
  read_params data pos k n ≠ [] →
  3 ≤ k
  ∧ n = byte_at data (pos + k) + 256 * byte_at data (pos + k + 1)
  ∧ 1 ≤ n
  ∧ pos + k + 2 + n ≤ length data
  ∧ read_params data pos k n = slice data (pos + k + 2) (pos + k + 2 + n).
Proof.
  intros Hin Hn Hne.
  destruct (read_params_cases data pos k n) as [Hnil | (Hpos & Hfit & Heq & _)];
    [contradiction|].
  assert (3 ≤ k) as Hk.
  { destruct (decide (3 ≤ k)) as [H3|H3]; [exact H3|].
    rewrite param_len_simple in Hn by lia. injection Hn as <-. lia. }
  rewrite param_len_little_endian in Hn by lia. injection Hn as Hn.
  split_and!; [exact Hk | symmetry; exact Hn | lia | exact Hfit | exact Heq].
Qed.

End Fields.

(** X18: every command returned by [parse_packet] either has empty
    [parameters], or has a prefix of three to five bytes and its
    [parameters] field is the hex text of exactly the [n] bytes that follow
    the two-byte length field, [n >= 1] being the little-endian value of that
    field, all inside the buffer.  Two-byte commands never carry
    parameters. *)
Theorem reported_parameters_are_declared (table : gmap bytes string) (self : ESCPParser)
    (data : bytes) :
  ∃ cmds self',
    parse_packet table self data = Ok (cmds, self')
    ∧ Forall (λ c,
        parameters c = ""
        ∨ ∃ k n,
            3 ≤ k ≤ 5
            ∧ command c = hex (slice data (position c) (position c + k))
            ∧ n = byte_at data (position c + k) + 256 * byte_at data (position c + k + 1)
            ∧ 1 ≤ n
            ∧ position c + k + 2 + n ≤ length data
            ∧ parameters c
              = hex (slice data (position c + k + 2) (position c + k + 2 + n))) cmds.
Proof.
  destruct (while_loop_inv table
              (λ fr, Forall (λ c,
                 parameters c = ""
                 ∨ ∃ k n,
                     3 ≤ k ≤ 5
                     ∧ command c = hex (slice data (position c) (position c + k))
                     ∧ n = byte_at data (position c + k)
                           + 256 * byte_at data (position c + k + 1)
                     ∧ 1 ≤ n
                     ∧ position c + k + 2 + n ≤ length data
                     ∧ parameters c
                       = hex (slice data (position c + k + 2) (position c + k + 2 + n)))
                 (parsed_commands fr)) data)
    with (fuel := length data) (fr := start self) as (fr' & Hloop & Hinv & _).
  - intros fr Hfr Hlt.
    destruct (decode table data (i fr)) as [|u|cmd d n params] eqn:Hdec; simpl;
      try exact Hfr.
    apply Forall_app. split; [exact Hfr|]. constructor; [|constructor].
    destruct (decode_matched table data _ _ _ _ _ Hlt Hdec)
      as (k & Hk & Hin & Hcmd & _ & Hn & Hparams).
    destruct (decide (params = [])) as [->|Hne]; [left; reflexivity|].
    right. rewrite Hparams in Hne.
    destruct (match_with_params data (i fr) k n Hin Hn Hne)
      as (H3 & HLE & H1 & Hfit & Heq).
    exists k, n. simpl.
    rewrite bool_decide_eq_true_2 by (rewrite Hparams; exact Hne).
    rewrite Hparams, Heq, Hcmd.
    split_and!; try assumption; try reflexivity; lia.
  - constructor.
  - simpl. lia.
  - exists (parsed_commands fr'), (self_ fr'). split; [|exact Hinv].
    unfold parse_packet. fold (start self). rewrite Hloop. reflexivity.
Qed.

(** X19: [parse_packet] only adds to [unknown_commands], and every sequence
    it adds is a slice of one or two bytes that starts at an escape byte of
    the buffer where no slice of the tried lengths is a table key; so an
    added sequence begins with ESC and, when it has two bytes, is not a
    command of the table. *)
Theorem unknown_sequences_are_unmatched (table : gmap bytes string) (self : ESCPParser)
    (data : bytes) :
  ∃ cmds self',
    parse_packet table self data = Ok (cmds, self')
    ∧ unknown_commands self ⊆ unknown_commands self'
    ∧ ∀ u, u ∈ unknown_commands self' →
        u ∈ unknown_commands self
        ∨ ∃ pos,
            pos < length data
            ∧ data !! pos = Some Byte.x1b
            ∧ u = slice data pos (pos + 2)
            ∧ head u = Some Byte.x1b
            ∧ 1 ≤ length u ≤ 2
            ∧ ∀ k, 2 ≤ k ≤ 5 → pos + k ≤ length data →
                   slice data pos (pos + k) ∉ dom table.
Proof.
  destruct (while_loop_inv table
              (λ fr,
                 unknown_commands self ⊆ unknown_commands (self_ fr)
                 ∧ ∀ u, u ∈ unknown_commands (self_ fr) →
                     u ∈ unknown_commands self
                     ∨ ∃ pos,
                         pos < length data
                         ∧ data !! pos = Some Byte.x1b
                         ∧ u = slice data pos (pos + 2)
                         ∧ head u = Some Byte.x1b
                         ∧ 1 ≤ length u ≤ 2
                         ∧ ∀ k, 2 ≤ k ≤ 5 → pos + k ≤ length data →
                                slice data pos (pos + k) ∉ dom table) data)
    with (fuel := length data) (fr := start self) as (fr' & Hloop & Hinv & _).
  - intros fr [Hsub Hall] Hlt.
    destruct (decode_cases table data (i fr))
      as [[_ ->] | [(Hesc & Hnone & ->) | (_ & k & _ & _ & _ & ->)]].
    + split; assumption.
    + simpl. split; [etransitivity; [exact Hsub | apply union_subseteq_r]|].
      intros u [Hu | Hu]%elem_of_union; [|apply Hall, Hu].
      apply elem_of_singleton in Hu as ->. right. exists (i fr).
      split; [exact Hlt|]. split; [exact Hesc|]. split; [reflexivity|].
      split; [|split].
      * rewrite head_lookup, slice_lookup by lia. rewrite Nat.add_0_r. exact Hesc.
      * pose proof (length_slice_le_2 data (i fr)) as Hle.
        unfold slice in *. rewrite length_take, length_drop in *. lia.
      * intros k Hk Hin Hdom. specialize (Hnone k Hk). unfold hit in Hnone.
        rewrite !bool_decide_eq_true_2 in Hnone by assumption. discriminate.
    + unfold match_at. simpl. split; assumption.
  - split; [reflexivity | auto].
  - simpl. lia.
  - exists (parsed_commands fr'), (self_ fr'). split; [|exact Hinv].
    unfold parse_packet. fold (start self). rewrite Hloop. reflexivity.
Qed.

(** ** Bytes in front of the first escape *)

Section Shift.

Variable table : gmap bytes string.
Variables junk data : bytes.

Lemma slice_shift lo hi :
  slice (junk ++ data) (length junk + lo) (length junk + hi) = slice data lo hi.
Proof.
  unfold slice. rewrite drop_app_add.
  replace (length junk + hi - (length junk + lo)) with (hi - lo) by lia.
  reflexivity.
Qed.

Lemma lookup_shift k : (junk ++ data) !! (length junk + k) = data !! k.
Proof.
  rewrite lookup_app_r by lia. f_equal. lia.
Qed.

Lemma byte_at_shift k : byte_at (junk ++ data) (length junk + k) = byte_at data k.
Proof. unfold byte_at. rewrite lookup_shift. reflexivity. Qed.

Lemma hit_shift pos k :
  hit table (junk ++ data) (length junk + pos) k = hit table data pos k.
Proof.
  unfold hit. rewrite <- Nat.add_assoc, slice_shift, length_app.
  f_equal. apply bool_decide_ext. lia.
Qed.

Lemma param_len_at_shift pos k :
  param_len_at (junk ++ data) (length junk + pos) k = param_len_at data pos k.
Proof.
  unfold param_len_at. rewrite length_app.
  replace (length junk + pos + k) with (length junk + (pos + k)) by lia.
  replace (length junk + (pos + k) + 1) with (length junk + (pos + k + 1)) by lia.
  rewrite !byte_at_shift.
  rewrite (bool_decide_ext (length junk + (pos + k + 1) < length junk + length data)
             (pos + k + 1 < length data)) by lia.
  rewrite (bool_decide_ext (length junk + (pos + k) + 2 < length junk + length data)
             (pos + k + 2 < length data)) by lia.
  reflexivity.
Qed.

Lemma read_params_shift pos k n :
  read_params (junk ++ data) (length junk + pos) k n = read_params data pos k n.
Proof.
  unfold read_params. rewrite length_app.
  replace (length junk + pos + k + 2) with (length junk + (pos + k + 2)) by lia.
  replace (length junk + (pos + k + 2) + n) with (length junk + (pos + k + 2 + n)) by lia.
  rewrite slice_shift.
  rewrite (bool_decide_ext (length junk + (pos + k + 2 + n) ≤ length junk + length data)
             (pos + k + 2 + n ≤ length data)) by lia.
  reflexivity.
Qed.

Lemma find_hit_shift pos (lens : list nat) :
  List.find (hit table (junk ++ data) (length junk + pos)) lens
  = List.find (hit table data pos) lens.
Proof.
  induction lens as [|k lens IH]; [reflexivity|].
  simpl. rewrite hit_shift, IH. reflexivity.
Qed.

Lemma match_at_shift pos k :
  match_at table (junk ++ data) (length junk + pos) k = match_at table data pos k.
Proof.
  unfold match_at.
  rewrite param_len_at_shift, read_params_shift, <- Nat.add_assoc, slice_shift.
  reflexivity.
Qed.

Lemma decode_shift pos :
  decode table (junk ++ data) (length junk + pos) = decode table data pos.
Proof.
  unfold decode. rewrite lookup_shift, find_hit_shift.
  case_bool_decide; [|reflexivity].
  destruct (List.find (hit table data pos) [5; 4; 3; 2]) as [k|].
  - apply match_at_shift.
  - rewrite <- Nat.add_assoc, slice_shift. reflexivity.
Qed.

Lemma commit_shift e fr :
  commit e (shift_frame (length junk) fr) = shift_frame (length junk) (commit e fr).
Proof.
  destruct e; unfold shift_frame; simpl; f_equal; try lia.
  rewrite map_app. reflexivity.
Qed.

Lemma while_loop_shift fuel fr fr' :
  while_loop table fuel data fr = Ok fr' →
  while_loop table fuel (junk ++ data) (shift_frame (length junk) fr)
  = Ok (shift_frame (length junk) fr').
Proof.
  revert fr. induction fuel as [|fuel IH]; intros fr Hloop.
  - destruct (decide (i fr < length data)) as [Hlt|Hge].
    + simpl in Hloop. rewrite bool_decide_eq_true_2 in Hloop by exact Hlt. discriminate.
    + rewrite while_loop_exit in Hloop by lia. injection Hloop as <-.
      apply while_loop_exit. rewrite length_app. simpl. lia.
  - destruct (decide (i fr < length data)) as [Hlt|Hge].
    + rewrite while_loop_step in Hloop by exact Hlt.
      rewrite while_loop_step by (rewrite length_app; simpl; lia).
      cbn [shift_frame i]. rewrite decode_shift.
      change {| i := length junk + i fr;
                parsed_commands := map (shifted (length junk)) (parsed_commands fr);
                self_ := self_ fr |} with (shift_frame (length junk) fr).
      rewrite commit_shift. apply IH, Hloop.
    + rewrite while_loop_exit in Hloop by lia. injection Hloop as <-.
      apply while_loop_exit. rewrite length_app. simpl. lia.
Qed.

Lemma while_loop_skips_junk (self : ESCPParser) fuel n j :
  Byte.x1b ∉ junk →
  j + n = length junk →
  while_loop table (n + fuel) (junk ++ data)
    {| i := j; parsed_commands := []; self_ := self |}
  = while_loop table fuel (junk ++ data)
      {| i := length junk; parsed_commands := []; self_ := self |}.
Proof.
  intros Hno. revert j. induction n as [|n IH]; intros j Hj.
  - replace j with (length junk) by lia. reflexivity.
  - change (S n + fuel) with (S (n + fuel)).
    rewrite while_loop_step by (rewrite length_app; simpl; lia).
    cbn [i]. rewrite decode_skip.
    + cbn [commit i parsed_commands self_].
      replace (j + 1) with (S j) by lia. apply IH. lia.
    + rewrite lookup_app_l by lia. intros Hesc.
      apply Hno. eapply list_elem_of_lookup_2, Hesc.
Qed.

End Shift.

(** X20: bytes in front of a buffer that contain no escape byte change
    nothing but the positions: [parse_packet(junk + data)] returns the
    commands of [parse_packet(data)] with every position moved by
    [len(junk)], and leaves the parser in the same state. *)
Theorem leading_bytes_shift_positions (table : gmap bytes string) (self : ESCPParser)
    (junk data : bytes) :
  Byte.x1b ∉ junk →
  ∃ cmds self',
    parse_packet table self data = Ok (cmds, self')
    ∧ parse_packet table self (junk ++ data)
      = Ok (map (shifted (length junk)) cmds, self').
Proof.
  intros Hno.
  destruct (while_loop_runs table data (length data) (start self))
    as (n & fr' & _ & _ & _ & Hloop); [simpl; lia|].
  exists (parsed_commands fr'), (self_ fr'). split.
  - unfold parse_packet. fold (start self). rewrite Hloop. reflexivity.
  - unfold parse_packet. rewrite length_app.
    rewrite (while_loop_skips_junk table junk data self (length data) (length junk) 0 Hno)
      by lia.
    replace {| i := length junk; parsed_commands := []; self_ := self |}
      with (shift_frame (length junk) (start self))
      by (unfold shift_frame, start; simpl; f_equal; lia).
    rewrite (while_loop_shift table junk data _ _ _ Hloop). reflexivity.
Qed.

(** Witness for X20: two bytes in front of [ESC ( G 01 00 07 ESC @]. *)
Lemma leading_bytes_shift_positions_witness :
  let data := [Byte.x1b; Byte.x28; Byte.x47; Byte.x01; Byte.x00; Byte.x07;
               Byte.x1b; Byte.x40] in
  ∃ cmds self',
    parse_packet ESCP_COMMANDS init data = Ok (cmds, self')
    ∧ parse_packet ESCP_COMMANDS init ([Byte.x00; Byte.xff] ++ data)
      = Ok (map (shifted 2) cmds, self').
Proof.
  intros data.
  apply (leading_bytes_shift_positions ESCP_COMMANDS init [Byte.x00; Byte.xff] data).
  intros H. repeat (apply elem_of_cons in H as [H | H]; [discriminate|]).
  inversion H.
Defined.

(** ** Commands built by the driver *)

Lemma to_byte_in_range (z : Z) :
  (0 ≤ z < 256)%Z →
  ∃ b, to_byte (PInt z) = Conv b ∧ Z.of_nat (Byte.to_nat b) = z.
Proof.
  intros Hz. unfold to_byte. rewrite bool_decide_eq_true_2 by exact Hz.
  destruct (byte_of_nat_some (Z.to_nat z)) as [b Hb]; [lia|].
  rewrite Hb. exists b. split; [reflexivity|].
  apply Byte.to_of_nat in Hb. rewrite Hb. lia.
Qed.

Lemma low_byte (v : Z) :
  (0 ≤ Z.land v 255 < 256)%Z ∧ Z.land v 255 = (v mod 256)%Z.
Proof.
  change 255%Z with (Z.ones 8). rewrite Z.land_ones by lia.
  change (2 ^ 8)%Z with 256%Z. split; [apply Z.mod_pos_bound; lia | reflexivity].
Qed.

Lemma with_word_bytes (prefix : bytes) (v : Z) :
  ∃ lo hi,
    with_word prefix v = Conv (prefix ++ [lo; hi])
    ∧ Z.of_nat (Byte.to_nat lo) = (v mod 256)%Z
    ∧ Z.of_nat (Byte.to_nat hi) = ((v / 256) mod 256)%Z.
Proof.
  destruct (low_byte v) as [Hr1 He1].
  destruct (low_byte (Z.shiftr v 8)) as [Hr2 He2].
  assert (Z.shiftr v 8 = v / 256)%Z as Hshift
    by (rewrite Z.shiftr_div_pow2 by lia; reflexivity).
  destruct (to_byte_in_range _ Hr1) as (lo & Hlo & Hvlo).
  destruct (to_byte_in_range _ Hr2) as (hi & Hhi & Hvhi).
  exists lo, hi. unfold with_word, with_args. cbn [to_bytes].
  rewrite Hlo, Hhi. split; [reflexivity|].
  rewrite Hvlo, Hvhi, He1, He2, Hshift. split; reflexivity.
Qed.

(** X21: the two argument bytes the driver appends to a position or page
    length command ([bytes([v & 0xFF, (v >> 8) & 0xFF])]) are built without
    an exception for every integer [v], negative or large, and are the
    little-endian encoding of [v] modulo 65536. *)
Theorem word_arguments_little_endian (prefix : bytes) (v : Z) :
  ∃ lo hi,
    with_word prefix v = Conv (prefix ++ [lo; hi])
    ∧ (Z.of_nat (Byte.to_nat lo) + 256 * Z.of_nat (Byte.to_nat hi) = v mod 65536)%Z.
Proof.
  destruct (with_word_bytes prefix v) as (lo & hi & Hw & Hlo & Hhi).
  exists lo, hi. split; [exact Hw|]. rewrite Hlo, Hhi.
  change 65536%Z with (256 * 256)%Z. rewrite Z.rem_mul_r by lia. reflexivity.
Qed.

(** A three-byte command of the shipped table followed by the length field
    [02 00] and two bytes, as the driver sends it. *)
Lemma parse_compound_two_bytes (self : ESCPParser) (P : bytes) (d : string) (a b : byte) :
  ESCP_COMMANDS !! P = Some d →
  length P = 3 →
  parse_packet ESCP_COMMANDS self (P ++ [Byte.x02; Byte.x00; a; b])
  = Ok ([ {| position := 0; command := hex P; description := d;
             parameters := hex [a; b] |} ],
        count_command P self).
Proof.
  intros HP Hlen.
  destruct (shipped_keys P d HP) as [Hhead _].
  destruct P as [|p1 [|p2 [|p3 [|p4 P]]]]; try discriminate.
  simpl in Hhead. injection Hhead as ->.
  set (data := [Byte.x1b; p2; p3] ++ [Byte.x02; Byte.x00; a; b]).
  assert (decode ESCP_COMMANDS data 0
          = Matched [Byte.x1b; p2; p3] d 2 [a; b]) as Hdec.
  { rewrite (decode_match ESCP_COMMANDS data 0 3); [| reflexivity | lia | |].
    - unfold match_at. cbn [data app slice take drop Nat.sub Nat.add].
      rewrite HP. reflexivity.
    - apply hit_true; [simpl; lia|]. apply elem_of_dom. eexists. exact HP.
    - intros k' Hk'. apply hit_false. intros Hin. apply shipped_no_longer; lia. }
  unfold parse_packet. change (length data) with 7.
  rewrite while_loop_step by (simpl; lia). cbn [i]. rewrite Hdec.
  rewrite while_loop_exit by (simpl; lia). reflexivity.
Qed.

(** X22: the vertical position command of [set_position] and the page
    length command of [start_print_job] are, for every integer argument,
    read back by the tokenizer as exactly one command with the two argument
    bytes as its parameters. *)
Theorem driver_word_commands_tokenized (self : ESCPParser) (v : Z) :
  (∃ lo hi,
     y_cmd v = Conv (ABSOLUTE_VERT_POS ++ [lo; hi])
     ∧ parse_packet ESCP_COMMANDS self (ABSOLUTE_VERT_POS ++ [lo; hi])
       = Ok ([ {| position := 0; command := "1b2856";
                  description := "Set absolute vertical position";
                  parameters := hex [lo; hi] |} ],
             count_command [Byte.x1b; Byte.x28; Byte.x56] self))
  ∧ (∃ lo hi,
       page_cmd v = Conv (SET_PAGE_LENGTH ++ [lo; hi])
       ∧ parse_packet ESCP_COMMANDS self (SET_PAGE_LENGTH ++ [lo; hi])
         = Ok ([ {| position := 0; command := "1b2843";
                    description := "Set page length";
                    parameters := hex [lo; hi] |} ],
               count_command [Byte.x1b; Byte.x28; Byte.x43] self)).
Proof.
  split.
  - destruct (with_word_bytes ABSOLUTE_VERT_POS v) as (lo & hi & Hw & _).
    exists lo, hi. split; [exact Hw|].
    apply (parse_compound_two_bytes self [Byte.x1b; Byte.x28; Byte.x56]
             "Set absolute vertical position" lo hi); [vm_compute|]; reflexivity.
  - destruct (with_word_bytes SET_PAGE_LENGTH v) as (lo & hi & Hw & _).
    exists lo, hi. split; [exact Hw|].
    apply (parse_compound_two_bytes self [Byte.x1b; Byte.x28; Byte.x43]
             "Set page length" lo hi); [vm_compute|]; reflexivity.
Qed.

(** X23: the colour command of [set_color] is, for every ink channel, built
    without an exception and read back by the tokenizer as exactly one
    ["Set color selection"] command whose parameters are [00] and the
    channel number. *)
Theorem driver_color_command_tokenized (self : ESCPParser) (color : InkChannel) :
  ∃ c,
    Z.of_nat (Byte.to_nat c) = ink_value color
    ∧ color_cmd color = Conv (SET_COLOR ++ [Byte.x00; c])
    ∧ parse_packet ESCP_COMMANDS self (SET_COLOR ++ [Byte.x00; c])
      = Ok ([ {| position := 0; command := "1b284b";
                 description := "Set color selection";
                 parameters := hex [Byte.x00; c] |} ],
            count_command [Byte.x1b; Byte.x28; Byte.x4b] self).
Proof.
  assert (∃ c, Z.of_nat (Byte.to_nat c) = ink_value color
               ∧ color_cmd color = Conv (SET_COLOR ++ [Byte.x00; c])) as (c & Hc & Hcmd).
  { destruct color; eexists; (split; [|reflexivity]); reflexivity. }
  exists c. split; [exact Hc|]. split; [exact Hcmd|].
  apply (parse_compound_two_bytes self [Byte.x1b; Byte.x28; Byte.x4b]
           "Set color selection" Byte.x00 c); [vm_compute|]; reflexivity.
Qed.

Lemma shipped_second_byte (P : bytes) (d : string) :
  ESCP_COMMANDS !! P = Some d → length P = 3 → P !! 1 = Some Byte.x28.
Proof.
  intros H. unfold ESCP_COMMANDS in H. apply elem_of_list_to_map_2 in H.
  revert H.
  apply (proj1 (Forall_forall
                  (λ p : bytes * string, length p.1 = 3 → p.1 !! 1 = Some Byte.x28) _)).
  repeat (constructor; [simpl; intros Hlen; try reflexivity; discriminate Hlen|]).
  constructor.
Qed.

Lemma decode_horizontal_prefix (lo hi : byte) :
  decode ESCP_COMMANDS (ABSOLUTE_HORIZ_POS ++ [lo; hi]) 0
  = Matched [Byte.x1b; Byte.x24] "Set absolute horizontal position" 0 [].
Proof.
  set (data := ABSOLUTE_HORIZ_POS ++ [lo; hi]).
  rewrite (decode_match ESCP_COMMANDS data 0 2); [reflexivity | reflexivity | lia | |].
  - apply hit_true; [simpl; lia|]. apply elem_of_dom. eexists. vm_compute. reflexivity.
  - intros k' Hk'. apply hit_false. intros Hin.
    destruct (decide (k' = 3)) as [->|Hne]; [|apply shipped_no_longer; lia].
    intros [d Hd]%elem_of_dom.
    apply shipped_second_byte in Hd; [discriminate Hd | reflexivity].
Qed.

(** After the prefix [ESC $] the loop stands at the first argument byte. *)
Lemma while_loop_horizontal (self : ESCPParser) (lo hi : byte) (fuel : nat) :
  while_loop ESCP_COMMANDS (S fuel) (ABSOLUTE_HORIZ_POS ++ [lo; hi]) (start self)
  = while_loop ESCP_COMMANDS fuel (ABSOLUTE_HORIZ_POS ++ [lo; hi])
      {| i := 2;
         parsed_commands :=
           [ {| position := 0; command := "1b24";
                description := "Set absolute horizontal position";
                parameters := "" |} ];
         self_ := count_command [Byte.x1b; Byte.x24] self |}.
Proof.
  rewrite while_loop_step by (simpl; lia).
  cbn [start i]. rewrite decode_horizontal_prefix. reflexivity.
Qed.

(** The horizontal position command with argument bytes that are not ESC. *)
Lemma parse_horizontal_clean (self : ESCPParser) (lo hi : byte) :
  lo ≠ Byte.x1b → hi ≠ Byte.x1b →
  parse_packet ESCP_COMMANDS self (ABSOLUTE_HORIZ_POS ++ [lo; hi])
  = Ok ([ {| position := 0; command := "1b24";
             description := "Set absolute horizontal position";
             parameters := "" |} ],
        count_command [Byte.x1b; Byte.x24] self).
Proof.
  intros Hlo Hhi.
  set (data := ABSOLUTE_HORIZ_POS ++ [lo; hi]).
  assert (decode ESCP_COMMANDS data 2 = Skip) as Hd2
    by (apply decode_skip; simpl; congruence).
  assert (decode ESCP_COMMANDS data 3 = Skip) as Hd3
    by (apply decode_skip; simpl; congruence).
  unfold parse_packet. change (length data) with 4. fold (start self).
  unfold data. rewrite while_loop_horizontal. fold data.
  rewrite while_loop_step by (simpl; lia). cbn [i]. rewrite Hd2.
  rewrite while_loop_step by (simpl; lia). cbn [commit i Nat.add]. rewrite Hd3.
  rewrite while_loop_exit by (simpl; lia). reflexivity.
Qed.

Lemma commit_keeps_unknown (u : bytes) (e : event) (fr : frame) :
  u ∈ unknown_commands (self_ fr) → u ∈ unknown_commands (self_ (commit e fr)).
Proof.
  intros Hu. destruct e; simpl; try exact Hu.
  apply elem_of_union. right. exact Hu.
Qed.

(** With an argument byte equal to ESC the tokenizer reports a second
    command or records an unknown sequence. *)
Lemma parse_horizontal_escape (self : ESCPParser) (lo hi : byte) :
  lo = Byte.x1b ∨ hi = Byte.x1b →
  ∃ cmds self',
    parse_packet ESCP_COMMANDS self (ABSOLUTE_HORIZ_POS ++ [lo; hi]) = Ok (cmds, self')
    ∧ (length cmds = 2 ∨ ∃ u, u ∈ unknown_commands self' ∧ head u = Some Byte.x1b).
Proof.
  intros Hesc.
  set (data := ABSOLUTE_HORIZ_POS ++ [lo; hi]).
  unfold parse_packet. change (length data) with 4. fold (start self).
  unfold data. rewrite while_loop_horizontal. fold data.
  destruct (decide (lo = Byte.x1b)) as [Hlo|Hlo].
  - destruct (decide ([Byte.x1b; hi] ∈ dom ESCP_COMMANDS)) as [Hin|Hout].
    + pose proof Hin as [d Hd]%elem_of_dom.
      assert (decode ESCP_COMMANDS data 2 = Matched [Byte.x1b; hi] d 0 []) as Hd2.
      { rewrite (decode_match ESCP_COMMANDS data 2 2); [| subst lo; reflexivity | lia | |].
        - unfold match_at, data. subst lo.
          cbn [ABSOLUTE_HORIZ_POS app slice take drop Nat.sub Nat.add].
          rewrite Hd. reflexivity.
        - apply hit_true; [simpl; lia|]. subst lo. exact Hin.
        - intros k' Hk'. apply hit_false. intros Hlen.
          change (length data) with 4 in Hlen. lia. }
      rewrite while_loop_step by (simpl; lia). cbn [i]. rewrite Hd2.
      rewrite while_loop_exit by (simpl; lia).
      eexists _, _. split; [reflexivity|]. left. reflexivity.
    + assert (decode ESCP_COMMANDS data 2 = Unknown [Byte.x1b; hi]) as Hd2.
      { rewrite decode_unknown; [subst lo; reflexivity | subst lo; reflexivity |].
        intros k Hk. apply hit_false. intros Hlen. simpl in Hlen.
        replace k with 2 by lia. subst lo. exact Hout. }
      rewrite while_loop_step by (simpl; lia). cbn [i]. rewrite Hd2.
      cbn [commit i parsed_commands self_ Nat.add].
      rewrite while_loop_step by (simpl; lia).
      rewrite while_loop_exit
        by (rewrite i_commit; pose proof (advance_decode_pos ESCP_COMMANDS data 3);
            change (length data) with 4; cbn [i] in *; lia).
      eexists _, _. split; [reflexivity|]. right. exists [Byte.x1b; hi].
      split; [|reflexivity].
      apply commit_keeps_unknown. cbn [self_ unknown_commands add_unknown].
      apply elem_of_union. left. apply elem_of_singleton. reflexivity.
  - destruct Hesc as [Hesc | Hhi]; [contradiction|].
    assert (decode ESCP_COMMANDS data 2 = Skip) as Hd2
      by (apply decode_skip; simpl; congruence).
    assert (decode ESCP_COMMANDS data 3 = Unknown [Byte.x1b]) as Hd3.
    { rewrite decode_unknown; [subst hi; reflexivity | subst hi; reflexivity |].
      intros k Hk. apply hit_false. intros Hlen.
      change (length data) with 4 in Hlen. lia. }
    rewrite while_loop_step by (simpl; lia). cbn [i]. rewrite Hd2.
    rewrite while_loop_step by (simpl; lia). cbn [commit i Nat.add]. rewrite Hd3.
    rewrite while_loop_exit by (simpl; lia).
    eexists _, _. split; [reflexivity|]. right. exists [Byte.x1b].
    split; [|reflexivity]. cbn [commit self_ unknown_commands add_unknown].
    apply elem_of_union. left. apply elem_of_singleton. reflexivity.
Qed.

(** X24: the horizontal position command of [set_position], [ESC $] with
    two argument bytes and no length field, is read back by the tokenizer of
    a new parser as the single command [ESC $] with nothing recorded as
    unknown exactly when neither argument byte is 0x1b; an argument byte
    equal to ESC is taken for the start of another command. *)
Theorem driver_horizontal_command_tokenized (x : Z) :
  ∃ lo hi,
    x_cmd x = Conv (ABSOLUTE_HORIZ_POS ++ [lo; hi])
    ∧ (parse_packet ESCP_COMMANDS init (ABSOLUTE_HORIZ_POS ++ [lo; hi])
       = Ok ([ {| position := 0; command := "1b24";
                  description := "Set absolute horizontal position";
                  parameters := "" |} ],
             count_command [Byte.x1b; Byte.x24] init)
       ↔ lo ≠ Byte.x1b ∧ hi ≠ Byte.x1b).
Proof.
  destruct (with_word_bytes ABSOLUTE_HORIZ_POS x) as (lo & hi & Hw & _).
  exists lo, hi. split; [exact Hw|]. split.
  - intros Hparse.
    destruct (decide (lo = Byte.x1b ∨ hi = Byte.x1b)) as [Hesc|Hno].
    + destruct (parse_horizontal_escape init lo hi Hesc)
        as (cmds & self' & Hp & [Hlen | (u & Hu & _)]);
        rewrite Hparse in Hp; injection Hp as <- <-.
      * discriminate Hlen.
      * simpl in Hu. apply elem_of_empty in Hu. contradiction.
    + split; intros ->; apply Hno; [left | right]; reflexivity.
  - intros [Hlo Hhi]. apply parse_horizontal_clean; assumption.
Qed.
